(** * brnc: the balanced chunk-shape solver

    A shallow embedding of [shape2chunk] and [_ranges2product] of
    [src/brnc/_common.py], and the properties of the chunk shapes they
    return; then of [length_to_slices_of_indexes] and [dict_prod] of the
    same file and of the slices that [load_by_step] and [load_by_size] of
    [src/brnc/_brnc.py] build from them.

    Numbers.  Python integers are unbounded and are modelled by [Z].  The
    solver, however, does its arithmetic inside NumPy: the grid of candidates
    is an [int64] array ([.astype(int)]), so every [prod] reduction and the
    subtraction of the budget wrap around modulo 2^64 ([wrap64] below), and
    the masking idiom [np.where(delta > 0, np.nan, np.abs(delta))] converts
    the distances to [float64], which rounds integers of more than 53 bits
    ([f64] below; the floats that occur are integer valued, so they are
    represented by the integer they denote).  Grid entries themselves never
    wrap: they are at most the largest extent plus one, and an array extent is
    a machine index.  The budget is taken inside [int64] wherever it meets
    the array.  Running out of memory for the grid is not modelled.

    Sorting.  [np.argsort] is modelled by a stable sort, which is what the
    comment "do +1 to left most axis first" and the docstring examples of the
    source rely on; only the order of rows of equal product depends on it. *)

From Stdlib Require Import ZArith List Lia Bool Arith.
From Stdlib Require String.
Import ListNotations.
Import String.StringSyntax.
Delimit Scope string_scope with string.
Local Open Scope Z_scope.

(** ** Errors and results *)

(** The source raises [ValueError] everywhere; the constructors tell the
    raise sites apart. *)
Inductive error : Type :=
| ZeroAxis        (* "No axis can have size 0" *)
| ZeroNumel       (* "Number of elements can't be zero" *)
| EmptyMax        (* max() of the empty list of stops *)
| SmallerProduct  (* "The smaller product between the ranges is greater than prod" *)
| NegativeDim     (* np.ones with a negative dimension *)
| EmptyArgmin     (* np.nanargmin of an empty array *)
| AllNaN.         (* np.nanargmin of an all-NaN array *)

Inductive result (A : Type) : Type :=
| Ok (a : A)
| Raise (e : error).
Arguments Ok {A} a.
Arguments Raise {A} e.

Definition bind {A B : Type} (m : result A) (f : A -> result B) : result B :=
  match m with
  | Ok a => f a
  | Raise e => Raise e
  end.

Notation "x <- m ;; k" := (bind m (fun x => k))
  (at level 61, m at next level, right associativity).

(** ** Machine arithmetic *)

Definition two53 : Z := Eval cbv in 2 ^ 53.
Definition two63 : Z := Eval cbv in 2 ^ 63.
Definition two64 : Z := Eval cbv in 2 ^ 64.
Definition mask64 : Z := Eval cbv in Z.ones 64.

(** Two's complement reduction to [int64]: the low 64 bits, read as a signed
    number. *)
Definition wrap64 (z : Z) : Z := Z.land (z + two63) mask64 - two63.

(** [ndarray.prod] of a row of an [int64] array. *)
Definition np_prod (l : list Z) : Z :=
  fold_left (fun acc x => wrap64 (acc * x)) l 1.

(** Conversion of an [int64] to [float64], round to nearest, ties to even;
    the result is the integer the float denotes. *)
Definition f64 (z : Z) : Z :=
  let a := Z.abs z in
  if a <=? two53 then z
  else
    let e := Z.log2 a - 52 in
    let q := Z.shiftr a e in
    let r := a - Z.shiftl q e in
    let half := 2 ^ (e - 1) in
    let q' := if (half <? r) || ((half =? r) && Z.odd q) then q + 1 else q in
    Z.sgn z * Z.shiftl q' e.

(** [np.clip(x, lo, hi)] is [minimum(maximum(x, lo), hi)]. *)
Definition clip (x lo hi : Z) : Z := Z.min (Z.max x lo) hi.

(** ** Ranges *)

(** A Python [range]; the solver reads only [.start] and [.stop], and uses
    them as the two ends of a closed interval. *)
Record range : Type := mkrange { start : Z; stop : Z }.

Definition starts (rngs : list range) : list Z := map start rngs.
Definition stops (rngs : list range) : list Z := map stop rngs.

(** Python's [max] of a list. *)
Definition py_max (l : list Z) : result Z :=
  match l with
  | [] => Raise EmptyMax
  | x :: t => Ok (fold_left Z.max t x)
  end.

(** ** The axis-group solver *)

(** Row [k] of the grid: [k] clipped into every range. *)
Definition row (rngs : list range) (k : Z) : list Z :=
  map (fun r => clip k (start r) (stop r)) rngs.

(** [np.ones((n, max_size)).cumsum(axis=1).astype(int).T.clip(...)]: the
    running sum counts [1, 2, ..., max_size], one row for each. *)
Fixpoint grid_from (rngs : list range) (k : Z) (n : nat) : list (list Z) :=
  match n with
  | O => []
  | S n' => row rngs k :: grid_from rngs (k + 1) n'
  end.

Definition grid (rngs : list range) (max_size : Z) : list (list Z) :=
  grid_from rngs 1 (Z.to_nat max_size).

(** [arr.prod(axis=1) - prod] for one row. *)
Definition delta (prod : Z) (r : list Z) : Z := wrap64 (np_prod r - prod).

(** [np.where(delta > 0, np.nan, np.abs(delta))] for one row; [None] is NaN. *)
Definition masked (d : Z) : option Z :=
  if 0 <? d then None else Some (f64 (wrap64 (Z.abs d))).

(** Index and value of the first minimum among the entries that are not NaN. *)
Fixpoint first_min (l : list (option Z)) : option (nat * Z) :=
  match l with
  | [] => None
  | x :: t =>
      match x, first_min t with
      | None, None => None
      | None, Some (j, w) => Some (S j, w)
      | Some v, None => Some (O, v)
      | Some v, Some (j, w) => if v <=? w then Some (O, v) else Some (S j, w)
      end
  end.

Definition nanargmin (l : list (option Z)) : result nat :=
  match l with
  | [] => Raise EmptyArgmin
  | _ =>
      match first_min l with
      | None => Raise AllNaN
      | Some (i, _) => Ok i
      end
  end.

(** [arr[np.nanargmin(np.where(delta > 0, np.nan, np.abs(delta))), :]]. *)
Definition closest (prod : Z) (rows : list (list Z)) : result (list Z) :=
  idx <- nanargmin (map (fun r => masked (delta prod r)) rows) ;;
  Ok (nth idx rows []).

(** [itertools.product([True, False], repeat=n)] as integers: the first
    position varies slowest and [True] comes first. *)
Fixpoint zerone (n : nat) : list (list Z) :=
  match n with
  | O => [[]]
  | S n' => map (cons 1) (zerone n') ++ map (cons 0) (zerone n')
  end.

Fixpoint add_row (a z : list Z) : list Z :=
  match a, z with
  | x :: a', y :: z' => (x + y) :: add_row a' z'
  | _, _ => []
  end.

Fixpoint clip_row (rngs : list range) (a : list Z) : list Z :=
  match rngs, a with
  | r :: rngs', x :: a' => clip x (start r) (stop r) :: clip_row rngs' a'
  | _, _ => []
  end.

(** [np.clip(arr[idx, :] + zerone, a_min=starts, a_max=stops)]. *)
Definition refine (rngs : list range) (a : list Z) : list (list Z) :=
  map (fun z => clip_row rngs (add_row a z)) (zerone (length rngs)).

(** [arr[np.argsort(arr.prod(axis=1))]], as a stable insertion sort. *)
Fixpoint insert_row (x : list Z) (l : list (list Z)) : list (list Z) :=
  match l with
  | [] => [x]
  | y :: t =>
      if np_prod x <=? np_prod y then x :: y :: t else y :: insert_row x t
  end.

Definition sort_rows (l : list (list Z)) : list (list Z) :=
  fold_right insert_row [] l.

(** The first half of [_ranges2product]: the row of the grid closest to
    [prod] from below. *)
Definition sweep (rngs : list range) (prod : Z) : result (list Z) :=
  max_size <- py_max (stops rngs) ;;
  if prod <? np_prod (starts rngs) then Raise SmallerProduct
  else if max_size <? 0 then Raise NegativeDim
  else closest prod (grid rngs max_size).

Definition _ranges2product (rngs : list range) (prod : Z) : result (list Z) :=
  a <- sweep rngs prod ;;
  closest prod (sort_rows (refine rngs a)).

(** ** The preference orchestrator *)

(** An entry of [pref_axes]: one axis or a list of axes. *)
Inductive pref : Type :=
| Axis (a : Z)
| Axes (l : list Z).

(** [axes if isinstance(axes, Iterable) else [axes]]. *)
Definition axes_of (p : pref) : list Z :=
  match p with
  | Axis a => [a]
  | Axes l => l
  end.

(** [axis in axes]. *)
Definition axis_in (axis : nat) (axes : list Z) : bool :=
  existsb (Z.eqb (Z.of_nat axis)) axes.

Definition enumerate {A : Type} (l : list A) : list (nat * A) :=
  combine (seq 0 (length l)) l.

(** [rngs2]: the ranges handed to the solver for one group. *)
Definition trial (rngs : list range) (axes : list Z) : list range :=
  map (fun '(axis, rng) =>
         if axis_in axis axes then rng
         else mkrange (start rng) (start rng))
      (enumerate rngs).

(** The ranges after a group has been solved to [chunks]. *)
Definition pin (rngs : list range) (axes : list Z) (chunks : list Z)
  : list range :=
  map (fun '(axis, rng) =>
         if axis_in axis axes
         then mkrange (nth axis chunks 0) (nth axis chunks 0)
         else rng)
      (enumerate rngs).

(** The body of [for axes in pref_axes]. *)
Fixpoint pin_groups (rngs : list range) (numel : Z) (plan : list pref)
  : result (list range) :=
  match plan with
  | [] => Ok rngs
  | p :: rest =>
      chunks <- _ranges2product (trial rngs (axes_of p)) numel ;;
      pin_groups (pin rngs (axes_of p) chunks) numel rest
  end.

(** [[range(1, size) for size in shape]]. *)
Definition free_ranges (shape : list Z) : list range :=
  map (fun size => mkrange 1 size) shape.

(** [[] if pref_axes is None else pref_axes]. *)
Definition plan_of (pref_axes : option (list pref)) : list pref :=
  match pref_axes with
  | None => []
  | Some l => l
  end.

Definition shape2chunk (shape : list Z) (numel : Z)
  (pref_axes : option (list pref)) : result (list Z) :=
  if existsb (Z.eqb 0) shape then Raise ZeroAxis
  else if numel =? 0 then Raise ZeroNumel
  else
    rngs <- pin_groups (free_ranges shape) numel (plan_of pref_axes) ;;
    _ranges2product rngs numel.

(** ** Splitting a length into slices *)

(** The errors of the functions below. *)
Inductive load_error : Type :=
| StepZero          (* ValueError: range() arg 3 must not be zero *)
| EmptyBlock        (* IndexError: index 0 is out of bounds, size 0 *)
| MissingDim        (* KeyError: no such dimension *)
| NoChunk (e : error).  (* shape2chunk raised [e] *)

Inductive outcome (A : Type) : Type :=
| Return (a : A)
| Throw (e : load_error).
Arguments Return {A} a.
Arguments Throw {A} e.

(** A list comprehension whose body may raise: the first error ends it. *)
Fixpoint traverse {A B : Type} (f : A -> outcome B) (l : list A)
  : outcome (list B) :=
  match l with
  | [] => Return []
  | x :: t =>
      match f x with
      | Throw e => Throw e
      | Return y =>
          match traverse f t with
          | Throw e => Throw e
          | Return ys => Return (y :: ys)
          end
      end
  end.

(** [len(range(start, stop, step))], for a step that is not zero. *)
Definition range_len (start stop step : Z) : Z :=
  if 0 <? step
  then (if start <? stop then (stop - start - 1) / step + 1 else 0)
  else (if stop <? start then (start - stop - 1) / (- step) + 1 else 0).

(** [list(range(start, stop, step))]; [None] is the [ValueError] for a zero
    step. *)
Definition py_range (start stop step : Z) : option (list Z) :=
  if step =? 0 then None
  else Some (map (fun i => start + Z.of_nat i * step)
               (seq 0 (Z.to_nat (range_len start stop step)))).

(** [range(n)]. *)
Definition range_upto (n : Z) : list Z :=
  map Z.of_nat (seq 0 (Z.to_nat n)).

(** A bound of a slice brought into [0, n], as Python does for [l[st:en]]. *)
Definition py_index (i n : Z) : Z :=
  if i <? 0 then Z.max (i + n) 0 else Z.min i n.

(** [l[st:en]]. *)
Definition py_slice {A : Type} (l : list A) (st en : Z) : list A :=
  let n := Z.of_nat (length l) in
  let s := py_index st n in
  let e := py_index en n in
  firstn (Z.to_nat (e - s)) (skipn (Z.to_nat s) l).

(** The loop of [np.array_split] over consecutive division points. *)
Fixpoint sections {A : Type} (l : list A) (st : Z) (points : list Z)
  : list (list A) :=
  match points with
  | [] => []
  | en :: rest => py_slice l st en :: sections l en rest
  end.

(** [np.array_split(l, indices)] for a list of indices: the division points
    are [[0] + indices + [len(l)]]. *)
Definition array_split {A : Type} (l : list A) (indices : list Z)
  : list (list A) :=
  sections l 0 (indices ++ [Z.of_nat (length l)]).

(** A Python [slice(start, stop)]. *)
Record slice : Type := mkslice { slice_start : Z; slice_stop : Z }.

(** [slice(arr[0], arr[-1] + 1)]. *)
Definition block_slice (arr : list Z) : outcome slice :=
  match arr with
  | [] => Throw EmptyBlock
  | x :: _ => Return (mkslice x (last arr x + 1))
  end.

(** [list(length_to_slices_of_indexes(length, step))]: the generator runs
    when it is consumed, and nothing is yielded before an error. *)
Definition length_to_slices_of_indexes (len step : Z) : outcome (list slice) :=
  match py_range step len step with
  | None => Throw StepZero
  | Some indices =>
      traverse block_slice (array_split (range_upto len) indices)
  end.

(** ** Products of dictionaries *)

(** A [dict] with string keys, in insertion order. *)
Definition dict (V : Type) : Type := list (String.string * V).

(** [d[k] = v]. *)
Fixpoint dict_set {V : Type} (k : String.string) (v : V) (d : dict V)
  : dict V :=
  match d with
  | [] => [(k, v)]
  | (k', v') :: t =>
      if String.eqb k k' then (k', v) :: t else (k', v') :: dict_set k v t
  end.

(** [dict(pairs)]. *)
Definition dict_of {V : Type} (pairs : list (String.string * V)) : dict V :=
  fold_left (fun d kv => dict_set (fst kv) (snd kv) d) pairs [].

(** [d[k]]; [None] is the [KeyError]. *)
Fixpoint dict_get {V : Type} (k : String.string) (d : dict V) : option V :=
  match d with
  | [] => None
  | (k', v) :: t => if String.eqb k k' then Some v else dict_get k t
  end.

(** [itertools.product] of the pools: the first pool varies slowest. *)
Fixpoint product {A : Type} (pools : list (list A)) : list (list A) :=
  match pools with
  | [] => [[]]
  | pool :: rest => flat_map (fun x => map (cons x) (product rest)) pool
  end.

Definition dict_prod {V : Type} (d : dict (list V)) : list (dict V) :=
  map (fun values => dict_of (combine (map fst d) values))
    (product (map snd d)).

(** ** From a chunk shape to the blocks that are loaded *)

(** [_dims_steps_to_dims_slices]: the extent of every dimension is looked up
    when the dictionary is built ([self.da[dim].size], given here by the
    dictionary [sizes] of the extents); the generators are left to run. *)
Definition dims_steps_to_dims_slices (sizes : dict Z) (dims_steps : dict Z)
  : outcome (dict (Z * Z)) :=
  traverse
    (fun ds => match dict_get (fst ds) sizes with
               | None => Throw MissingDim
               | Some size => Return (fst ds, (size, snd ds))
               end)
    dims_steps.

(** [slices = dict_prod(self._dims_steps_to_dims_slices(dims_kws))] of
    [load_by_step]: [itertools.product] runs the generators in the order of
    the dictionary. *)
Definition load_by_step_slices (sizes : dict Z) (dims_kws : dict Z)
  : outcome (list (dict slice)) :=
  match dims_steps_to_dims_slices sizes dims_kws with
  | Throw e => Throw e
  | Return gens =>
      match traverse
              (fun g => match length_to_slices_of_indexes (fst (snd g))
                                (snd (snd g)) with
                        | Throw e => Throw e
                        | Return sl => Return (fst g, sl)
                        end)
              gens with
      | Throw e => Throw e
      | Return d => Return (dict_prod d)
      end
  end.


(** * The vocabulary of the properties *)

(** The product of a list of integers, without wrap-around. *)
Definition lprod (l : list Z) : Z := fold_right Z.mul 1 l.

(** A row is exact when its product does not leave [int64]. *)
Definition exact (r : list Z) : Prop :=
  Forall (fun x => 1 <= x) r /\ lprod r < two63.

(** The increments are the lists of zeros and ones of the right length. *)
Definition bits (z : list Z) : Prop := Forall (fun b => b = 0 \/ b = 1) z.

(** A range as the solver expects it: not empty, and at least one. *)
Definition wf (r : range) : Prop := 1 <= start r <= stop r.

Definition within (rngs : list range) (t : list Z) : Prop :=
  Forall2 (fun r x => start r <= x <= stop r) rngs t.

Definition no_range : range := mkrange 0 0.

(** A working range of a dimension of extent [s]: still free, [1, s], or
    pinned to one value inside it. *)
Definition held (s : Z) (r : range) : Prop :=
  1 <= start r <= stop r /\ stop r <= s /\
  (start r = stop r \/ (start r = 1 /\ stop r = s)).

Definition working (shape : list Z) (rngs : list range) : Prop :=
  Forall2 held shape rngs.

(** Budgets and shapes for which the [int64] arithmetic is exact. *)
Definition fits (shape : list Z) (numel : Z) : Prop :=
  lprod shape < two63 /\ 0 < numel < two63.

(** Whether a dimension occurs in some group of a plan. *)
Definition mentioned (i : nat) (plan : list pref) : bool :=
  existsb (fun g => axis_in i (axes_of g)) plan.

(** The loop followed by the last call of the solver. *)
Definition run (rngs : list range) (numel : Z) (plan : list pref)
  : result (list Z) :=
  rngs' <- pin_groups rngs numel plan ;; _ranges2product rngs' numel.

(** A working range without its extent: pinned, or starting at one. *)
Definition simple (r : range) : Prop :=
  1 <= start r <= stop r /\ (start r = stop r \/ start r = 1).

(** The tuple with 1 at position [i] and 0 elsewhere. *)
Definition unit_row (n i : nat) : list Z :=
  map (fun j => if Nat.eqb j i then 1 else 0) (seq 0 n).

(** [z] with a 1 written at position [i]. *)
Definition raise_at (i : nat) (z : list Z) : list Z :=
  map (fun '(j, b) => if Nat.eqb j i then 1 else b) (enumerate z).

(** C1 as it is stated: whatever [shape2chunk] returns has a product of at
    most [numel]. *)
Definition budget_property (shape : list Z) (numel : Z)
  (pa : option (list pref)) : Prop :=
  forall chunk, shape2chunk shape numel pa = Ok chunk -> lprod chunk <= numel.

(** C4 as it is stated: in the ranges handed to the solver for the group [g]
    that follows the groups [p1], every dimension outside [g] is pinned
    to 1. *)
Definition pinned_to_one (shape : list Z) (numel : Z) (p1 : list pref)
  (g : pref) : Prop :=
  forall rngs i,
    pin_groups (free_ranges shape) numel p1 = Ok rngs ->
    (i < length shape)%nat -> axis_in i (axes_of g) = false ->
    nth i (trial rngs (axes_of g)) no_range = mkrange 1 1.

(** C7 as it is stated: the call fails with the error of the budget check. *)
Definition invalid_budget_rejected (shape : list Z) (numel : Z)
  (pa : option (list pref)) : Prop :=
  shape2chunk shape numel pa = Raise ZeroNumel.

(** C9 as it is stated: with a budget of at least the number of elements and
    no plan, the shape itself is returned. *)
Definition whole_array (shape : list Z) (numel : Z) : Prop :=
  shape2chunk shape numel None = Ok shape.

(** Some dimension index occurs in two groups of the plan. *)
Definition overlapping (plan : list pref) : Prop :=
  exists p1 g1 p2 g2 p3 a,
    plan = p1 ++ g1 :: p2 ++ g2 :: p3 /\
    In a (axes_of g1) /\ In a (axes_of g2).

(** C8 as it is stated: the call fails. *)
Definition overlap_rejected (shape : list Z) (numel : Z) (plan : list pref)
  : Prop :=
  exists e, shape2chunk shape numel (Some plan) = Raise e.

(** C3 as it is stated: adding 1 to one coordinate of the returned tuple,
    clamped to [1, shape[i]], never gives a larger product that is still
    within the budget. *)
Definition single_step_maximal (shape : list Z) (numel : Z) (chunk : list Z)
  : Prop :=
  forall i, (i < length shape)%nat ->
    let t := clip_row (free_ranges shape)
               (add_row chunk (unit_row (length shape) i)) in
    ~ (lprod t <= numel /\ lprod chunk < lprod t).

(** C6 as it is stated: of two budgets for which the call returns, the
    larger one gives the larger or the same product. *)
Definition monotone_at (shape : list Z) (n1 n2 : Z) (pa : option (list pref))
  : Prop :=
  forall c1 c2,
    shape2chunk shape n1 pa = Ok c1 -> shape2chunk shape n2 pa = Ok c2 ->
    lprod c1 <= lprod c2.

(** The indexes [a, ..., b - 1]. *)
Definition segment (a b : Z) : list Z :=
  map Z.of_nat (seq (Z.to_nat a) (Z.to_nat (b - a))).

(** The indexes that a slice selects. *)
Definition slice_indexes (s : slice) : list Z :=
  segment (slice_start s) (slice_stop s).

(** The number of indexes that a slice selects. *)
Definition slice_width (s : slice) : Z := slice_stop s - slice_start s.

(** The [i]-th slice of a length cut into steps. *)
Definition nth_slice (len step : Z) (i : nat) : slice :=
  mkslice (Z.of_nat i * step) (Z.min ((Z.of_nat i + 1) * step) len).



(** The slices of one dimension. *)
Definition dim_slices (sc : Z * Z) : list slice :=
  map (nth_slice (fst sc) (snd sc))
    (seq 0 (S (Z.to_nat ((fst sc - 1) / snd sc)))).

(** A block selects a tuple of indexes: every index lies in the slice of its
    dimension, [start <= i < stop]. *)
Definition covers (b : dict slice) (point : list Z) : Prop :=
  Forall2 (fun sl i => slice_start sl <= i < slice_stop sl) (map snd b) point.

(** * Properties *)

(** The docstring examples of the source. *)
Example example_balanced :
  shape2chunk [400; 30; 200; 100] 1024 None = Ok [6; 6; 5; 5].
Proof. vm_compute. reflexivity. Qed.

Example example_two_axes :
  shape2chunk [400; 30; 200; 100] 1024 (Some [Axis 0; Axis 1])
  = Ok [400; 2; 1; 1].
Proof. vm_compute. reflexivity. Qed.

Example example_one_group :
  shape2chunk [400; 30; 200; 100] 1024 (Some [Axes [0; 1]])
  = Ok [34; 30; 1; 1].
Proof. vm_compute. reflexivity. Qed.

Example example_group_then_axes :
  shape2chunk [400; 30; 20; 10] 1024 (Some [Axes [2; 3]; Axis 1; Axis 0])
  = Ok [1; 5; 20; 10].
Proof. vm_compute. reflexivity. Qed.

Example example_two_groups :
  shape2chunk [400; 30; 20; 10] 1024 (Some [Axes [2; 3]; Axes [1; 0]])
  = Ok [2; 2; 20; 10].
Proof. vm_compute. reflexivity. Qed.

Example example_ranges :
  _ranges2product [mkrange 1 10; mkrange 2 15; mkrange 4 20] 102
  = Ok [5; 5; 4].
Proof. vm_compute. reflexivity. Qed.

(** ** Exact products *)

Lemma wrap64_mod (z : Z) : wrap64 z = (z + two63) mod two64 - two63.
Proof.
  unfold wrap64. change mask64 with (Z.ones 64).
  rewrite Z.land_ones by lia. reflexivity.
Qed.

Lemma wrap64_small (z : Z) : - two63 <= z < two63 -> wrap64 z = z.
Proof.
  intros H. rewrite wrap64_mod. unfold two63, two64 in *.
  rewrite Z.mod_small by lia. lia.
Qed.

Lemma wrap64_mul_l (a x : Z) : wrap64 (wrap64 a * x) = wrap64 (a * x).
Proof.
  rewrite !wrap64_mod. f_equal.
  replace (((a + two63) mod two64 - two63) * x + two63)
    with ((a + two63) mod two64 * x + (two63 - two63 * x)) by ring.
  replace (a * x + two63) with ((a + two63) * x + (two63 - two63 * x)) by ring.
  rewrite (Z.add_mod ((a + two63) mod two64 * x)) by (unfold two64; lia).
  rewrite (Z.mul_mod ((a + two63) mod two64)) by (unfold two64; lia).
  rewrite Z.mod_mod by (unfold two64; lia).
  rewrite <- Z.mul_mod by (unfold two64; lia).
  rewrite <- Z.add_mod by (unfold two64; lia).
  reflexivity.
Qed.

Lemma np_prod_from (l : list Z) (a : Z) :
  fold_left (fun acc x => wrap64 (acc * x)) l (wrap64 a)
  = wrap64 (a * lprod l).
Proof.
  revert a. induction l as [|x l IH]; intros a; simpl.
  - now rewrite Z.mul_1_r.
  - rewrite wrap64_mul_l, IH. f_equal. ring.
Qed.

Lemma np_prod_wrap (l : list Z) : np_prod l = wrap64 (lprod l).
Proof.
  unfold np_prod. change 1 with (wrap64 1) at 1.
  rewrite np_prod_from. f_equal. ring.
Qed.

Lemma lprod_pos (l : list Z) : Forall (fun x => 1 <= x) l -> 1 <= lprod l.
Proof.
  induction 1 as [|x l Hx _ IH]; simpl; [lia | nia].
Qed.

Lemma lprod_le (l1 l2 : list Z) :
  Forall2 (fun x y => 1 <= x <= y) l1 l2 -> 1 <= lprod l1 <= lprod l2.
Proof.
  induction 1 as [|x y l1 l2 Hxy _ IH]; simpl; [lia | nia].
Qed.

(** Pointwise smaller positive factors with the same product are the same
    factors. *)
Lemma lprod_le_eq (l1 l2 : list Z) :
  Forall2 (fun x y => 1 <= x <= y) l1 l2 -> lprod l2 <= lprod l1 -> l1 = l2.
Proof.
  induction 1 as [|x y l1 l2 Hxy Hl IH]; simpl; intros Hp; [reflexivity|].
  pose proof (lprod_le _ _ Hl) as Hle.
  assert (x = y) by nia. subst y.
  f_equal. apply IH. nia.
Qed.

Lemma np_prod_exact (l : list Z) :
  Forall (fun x => 1 <= x) l -> lprod l < two63 -> np_prod l = lprod l.
Proof.
  intros Hl Hb. rewrite np_prod_wrap. apply wrap64_small.
  pose proof (lprod_pos _ Hl). unfold two63 in *. lia.
Qed.

Lemma f64_small (z : Z) : Z.abs z <= two53 -> f64 z = z.
Proof.
  intros H. unfold f64. apply Z.leb_le in H. now rewrite H.
Qed.

Lemma delta_exact (p : Z) (r : list Z) :
  exact r -> 0 < p < two63 -> delta p r = lprod r - p.
Proof.
  intros [Hr Hb] Hp. unfold delta. rewrite np_prod_exact by assumption.
  apply wrap64_small. pose proof (lprod_pos _ Hr). unfold two63 in *. lia.
Qed.

(** The mask is NaN exactly on the rows over the budget. *)
Lemma masked_nan (p : Z) (r : list Z) :
  exact r -> 0 < p < two63 ->
  masked (delta p r) = None <-> p < lprod r.
Proof.
  intros Hr Hp. rewrite delta_exact by assumption. unfold masked.
  destruct (0 <? lprod r - p) eqn:E.
  - apply Z.ltb_lt in E. split; [lia | reflexivity].
  - apply Z.ltb_ge in E. split; [discriminate | lia].
Qed.

(** Below 2^53 the distance to the budget is kept exactly. *)
Lemma masked_distance (p : Z) (r : list Z) :
  exact r -> 0 < p <= two53 -> lprod r <= p ->
  masked (delta p r) = Some (p - lprod r).
Proof.
  intros Hr Hp Hle.
  assert (Hp' : 0 < p < two63) by (unfold two53, two63 in *; lia).
  rewrite delta_exact by assumption. unfold masked.
  destruct (0 <? lprod r - p) eqn:E; [apply Z.ltb_lt in E; lia|].
  destruct Hr as [Hr _]. pose proof (lprod_pos _ Hr).
  rewrite wrap64_small by (unfold two53, two63 in *; lia).
  rewrite f64_small by (unfold two53 in *; lia).
  f_equal. lia.
Qed.

(** ** The masked argmin *)

Lemma first_min_some (l : list (option Z)) (i : nat) (v : Z) :
  first_min l = Some (i, v) ->
  nth_error l i = Some (Some v) /\
  forall j w, nth_error l j = Some (Some w) -> v <= w.
Proof.
  revert i v. induction l as [|x l IH]; intros i v; simpl; [discriminate|].
  destruct x as [u|], (first_min l) as [[j w]|] eqn:E.
  - specialize (IH _ _ eq_refl) as [Hn Hmin].
    destruct (u <=? w) eqn:Huw; intros [= <- <-].
    + apply Z.leb_le in Huw. split; [reflexivity|].
      intros [|k] y; simpl; [intros [= ->]; lia|].
      intros Hk. specialize (Hmin _ _ Hk). lia.
    + apply Z.leb_gt in Huw. split; [exact Hn|].
      intros [|k] y; simpl; [intros [= ->]; lia|].
      intros Hk. exact (Hmin _ _ Hk).
  - intros [= <- <-]. split; [reflexivity|].
    intros [|k] y; simpl; [intros [= ->]; lia|].
    intros Hk. exfalso. clear IH. revert k Hk E.
    induction l as [|z l IHl]; intros k Hk E; [destruct k; discriminate|].
    simpl in E. destruct z as [z|], (first_min l) as [[? ?]|] eqn:E';
      try discriminate; try (destruct (z <=? _); discriminate).
    destruct k; [discriminate | eauto].
  - specialize (IH _ _ eq_refl) as [Hn Hmin]. intros [= <- <-].
    split; [exact Hn|].
    intros [|k] y; simpl; [discriminate|]. intros Hk. exact (Hmin _ _ Hk).
  - discriminate.
Qed.

Lemma first_min_none (l : list (option Z)) :
  first_min l = None -> forall x, In x l -> x = None.
Proof.
  induction l as [|x l IH]; simpl; intros E y Hy; [contradiction|].
  destruct x as [u|], (first_min l) as [[j w]|] eqn:E';
    try discriminate; try (destruct (u <=? w); discriminate).
  destruct Hy as [<- | Hy]; [reflexivity | now apply IH].
Qed.

Lemma nanargmin_ok (l : list (option Z)) (i : nat) :
  nanargmin l = Ok i -> exists v, first_min l = Some (i, v).
Proof.
  unfold nanargmin. destruct l as [|o l]; [discriminate|].
  destruct (first_min (o :: l)) as [[j w]|]; [|discriminate].
  intros [= <-]. eauto.
Qed.

Lemma nanargmin_total (l : list (option Z)) (x : option Z) :
  In x l -> x <> None -> exists i, nanargmin l = Ok i.
Proof.
  intros Hin Hx. unfold nanargmin. destruct l as [|o l]; [contradiction|].
  destruct (first_min (o :: l)) as [[j w]|] eqn:E; [eauto|].
  exfalso. apply Hx. eapply first_min_none; eassumption.
Qed.

(** What [closest] returns: a row of the array, not masked, whose masked
    distance is least. *)
Lemma closest_ok (p : Z) (rows : list (list Z)) (r : list Z) :
  closest p rows = Ok r ->
  In r rows /\
  exists v, masked (delta p r) = Some v /\
            forall r' w, In r' rows -> masked (delta p r') = Some w -> v <= w.
Proof.
  unfold closest. intros H.
  destruct (nanargmin (map (fun r => masked (delta p r)) rows))
    as [i|] eqn:E; [|discriminate].
  simpl in H. injection H as H.
  apply nanargmin_ok in E as [v E].
  apply first_min_some in E as [Hn Hmin].
  rewrite nth_error_map in Hn.
  destruct (nth_error rows i) as [r0|] eqn:Hr; [|discriminate].
  simpl in Hn. injection Hn as Hn.
  rewrite (nth_error_nth _ _ _ Hr) in H. subst r0.
  split; [eapply nth_error_In; eassumption|].
  exists v. split; [assumption|].
  intros r' w Hin Hw. apply In_nth_error in Hin as [j Hj].
  apply (Hmin j). rewrite nth_error_map, Hj. simpl. now f_equal.
Qed.

Lemma closest_total (p : Z) (rows : list (list Z)) (r : list Z) :
  In r rows -> masked (delta p r) <> None ->
  exists r', closest p rows = Ok r'.
Proof.
  intros Hin Hr. unfold closest.
  destruct (nanargmin_total (map (fun r => masked (delta p r)) rows)
              (masked (delta p r))) as [i ->]; [|assumption|simpl; eauto].
  now apply (in_map (fun r => masked (delta p r))).
Qed.

(** ** The rows the solver looks at *)

Lemma grid_from_in (rngs : list range) (n : nat) (k : Z) (r : list Z) :
  In r (grid_from rngs k n) <->
  exists j, k <= j < k + Z.of_nat n /\ r = row rngs j.
Proof.
  revert k. induction n as [|n IH]; intros k.
  - simpl. split; [contradiction | intros (j & Hj & _); lia].
  - cbn [grid_from In]. rewrite IH. split.
    + intros [<- | (j & Hj & ->)]; [exists k | exists j]; split; (lia || auto).
    + intros (j & Hj & ->).
      destruct (Z.eq_dec j k) as [-> | Hne]; [now left | right].
      exists j. split; [lia | reflexivity].
Qed.

Lemma grid_in (rngs : list range) (m : Z) (r : list Z) :
  0 <= m ->
  In r (grid rngs m) <-> exists j, 1 <= j <= m /\ r = row rngs j.
Proof.
  intros Hm. unfold grid. rewrite grid_from_in, Z2Nat.id by assumption.
  split; intros (j & Hj & ->); exists j; (split; [lia | reflexivity]).
Qed.

Lemma insert_row_in (x r : list Z) (l : list (list Z)) :
  In r (insert_row x l) <-> r = x \/ In r l.
Proof.
  induction l as [|y l IH]; simpl.
  - intuition congruence.
  - destruct (np_prod x <=? np_prod y); simpl; [intuition congruence|].
    rewrite IH. intuition congruence.
Qed.

Lemma sort_rows_in (r : list Z) (l : list (list Z)) :
  In r (sort_rows l) <-> In r l.
Proof.
  induction l as [|x l IH]; simpl; [tauto|].
  rewrite insert_row_in, IH. intuition congruence.
Qed.

Lemma refine_in (rngs : list range) (a t : list Z) :
  In t (refine rngs a) <->
  exists z, In z (zerone (length rngs)) /\ t = clip_row rngs (add_row a z).
Proof.
  unfold refine. rewrite in_map_iff.
  split; intros (z & H1 & H2); exists z; auto.
Qed.

Lemma zerone_in (n : nat) (z : list Z) :
  In z (zerone n) <-> length z = n /\ bits z.
Proof.
  revert z. induction n as [|n IH]; intros z; simpl.
  - split.
    + intros [<- | []]. split; [reflexivity | constructor].
    + intros [Hl _]. destruct z; [now left | discriminate].
  - rewrite in_app_iff, !in_map_iff. split.
    + intros [(y & <- & Hy) | (y & <- & Hy)]; apply IH in Hy as [Hl Hb];
        (split; [simpl; congruence | constructor; [lia | assumption]]).
    + intros [Hl Hb]. destruct z as [|b z]; [discriminate|].
      injection Hl as Hl. inversion Hb as [|? ? Hb0 Hbz]; subst.
      assert (Hz : In z (zerone (length z))) by (apply IH; auto).
      destruct Hb0 as [-> | ->]; [right | left]; exists z; auto.
Qed.

Lemma zeros_in (n : nat) : In (repeat 0 n) (zerone n).
Proof.
  apply zerone_in. split; [apply repeat_length|].
  apply Forall_forall. intros x Hx. apply repeat_spec in Hx. now left.
Qed.

Lemma fold_max_spec (l : list Z) (x : Z) :
  let m := fold_left Z.max l x in
  x <= m /\ Forall (fun y => y <= m) l /\ (m = x \/ In m l).
Proof.
  revert x. induction l as [|y l IH]; intros x; simpl.
  - repeat split; [lia | constructor | now left].
  - destruct (IH (Z.max x y)) as (H1 & H2 & H3).
    repeat split; [lia | constructor; [lia | assumption] |].
    destruct H3 as [H3 | H3]; [|now right; right].
    rewrite H3. destruct (Z.max_spec x y) as [[_ ->] | [_ ->]]; auto.
Qed.

Lemma py_max_ok (l : list Z) (m : Z) :
  py_max l = Ok m -> Forall (fun y => y <= m) l /\ In m l.
Proof.
  destruct l as [|x l]; [discriminate|]. simpl. intros [= <-].
  destruct (fold_max_spec l x) as (H1 & H2 & H3).
  split; [constructor; assumption|].
  destruct H3 as [-> | H3]; [now left | now right].
Qed.

(** The shape of what the two halves of the solver return. *)
Lemma sweep_ok (rngs : list range) (p : Z) (a : list Z) :
  sweep rngs p = Ok a ->
  exists m k, py_max (stops rngs) = Ok m /\ 1 <= k <= m /\ a = row rngs k /\
              np_prod (starts rngs) <= p /\
              closest p (grid rngs m) = Ok a.
Proof.
  unfold sweep. destruct (py_max (stops rngs)) as [m|] eqn:Em; [|discriminate].
  simpl. destruct (p <? np_prod (starts rngs)) eqn:Ep; [discriminate|].
  destruct (m <? 0) eqn:Eneg; [discriminate|].
  apply Z.ltb_ge in Ep, Eneg. intros H.
  destruct (closest_ok _ _ _ H) as [Hin _].
  apply grid_in in Hin as (k & Hk & ->); [|assumption].
  exists m, k. auto.
Qed.

Lemma ranges2product_ok (rngs : list range) (p : Z) (t : list Z) :
  _ranges2product rngs p = Ok t ->
  exists a z, sweep rngs p = Ok a /\ In z (zerone (length rngs)) /\
              t = clip_row rngs (add_row a z) /\
              closest p (sort_rows (refine rngs a)) = Ok t.
Proof.
  unfold _ranges2product. destruct (sweep rngs p) as [a|] eqn:Ea; [|discriminate].
  simpl. intros H. destruct (closest_ok _ _ _ H) as [Hin _].
  apply sort_rows_in, refine_in in Hin as (z & Hz & ->).
  exists a, z. auto.
Qed.

(** ** Rows inside their ranges *)

Lemma clip_bounds (x lo hi : Z) : lo <= hi -> lo <= clip x lo hi <= hi.
Proof. unfold clip. lia. Qed.

Lemma clip_id (x lo hi : Z) : lo <= x <= hi -> clip x lo hi = x.
Proof. unfold clip. lia. Qed.

Lemma row_length (rngs : list range) (k : Z) :
  length (row rngs k) = length rngs.
Proof. apply length_map. Qed.

Lemma row_within (rngs : list range) (k : Z) :
  Forall wf rngs -> within rngs (row rngs k).
Proof.
  induction 1 as [|r rngs Hr _ IH]; simpl; constructor; [|exact IH].
  apply clip_bounds. unfold wf in Hr. lia.
Qed.

Lemma add_row_length (a z : list Z) :
  length a = length z -> length (add_row a z) = length a.
Proof.
  revert z. induction a as [|x a IH]; intros [|y z]; simpl; try discriminate;
    auto.
Qed.

Lemma clip_row_within (rngs : list range) (a : list Z) :
  Forall wf rngs -> length a = length rngs -> within rngs (clip_row rngs a).
Proof.
  intros H. revert a. induction H as [|r rngs Hr _ IH]; intros [|x a]; simpl;
    try discriminate; intros Hl; constructor.
  - apply clip_bounds. unfold wf in Hr. lia.
  - apply IH. lia.
Qed.

Lemma within_length (rngs : list range) (t : list Z) :
  within rngs t -> length t = length rngs.
Proof. intros H. symmetry. exact (Forall2_length H). Qed.

Lemma within_stops (rngs : list range) (t : list Z) :
  Forall wf rngs -> within rngs t ->
  Forall2 (fun x y => 1 <= x <= y) t (stops rngs).
Proof.
  intros Hwf H. induction H as [|r x rngs t Hx _ IH]; simpl; constructor;
    inversion Hwf as [|? ? Hr Hwf']; subst.
  - unfold wf in Hr. lia.
  - now apply IH.
Qed.

Lemma within_starts (rngs : list range) (t : list Z) :
  Forall wf rngs -> within rngs t ->
  Forall2 (fun x y => 1 <= x <= y) (starts rngs) t.
Proof.
  intros Hwf H. induction H as [|r x rngs t Hx _ IH]; simpl; constructor;
    inversion Hwf as [|? ? Hr Hwf']; subst.
  - unfold wf in Hr. lia.
  - now apply IH.
Qed.

Lemma within_pos (rngs : list range) (t : list Z) :
  Forall wf rngs -> within rngs t -> Forall (fun x => 1 <= x) t.
Proof.
  intros Hwf H. induction H as [|r x rngs t Hx _ IH]; constructor;
    inversion Hwf as [|? ? Hr Hwf']; subst.
  - unfold wf in Hr. lia.
  - now apply IH.
Qed.

Lemma within_exact (rngs : list range) (t : list Z) :
  Forall wf rngs -> lprod (stops rngs) < two63 -> within rngs t -> exact t.
Proof.
  intros Hwf Hb H. split; [eapply within_pos; eassumption|].
  pose proof (lprod_le _ _ (within_stops _ _ Hwf H)). lia.
Qed.

Lemma starts_within (rngs : list range) :
  Forall wf rngs -> within rngs (starts rngs).
Proof.
  induction 1 as [|r rngs Hr _ IH]; simpl; constructor; [|exact IH].
  unfold wf in Hr. lia.
Qed.

Lemma stops_within (rngs : list range) :
  Forall wf rngs -> within rngs (stops rngs).
Proof.
  induction 1 as [|r rngs Hr _ IH]; simpl; constructor; [|exact IH].
  unfold wf in Hr. lia.
Qed.

(** The first row of the grid is the tuple of lower ends. *)
Lemma row_one (rngs : list range) :
  Forall wf rngs -> row rngs 1 = starts rngs.
Proof.
  induction 1 as [|r rngs Hr _ IH]; simpl; [reflexivity|].
  f_equal; [unfold clip, wf in *; lia | exact IH].
Qed.

(** Adding nothing to a row inside its ranges gives the row back. *)
Lemma clip_row_zeros (rngs : list range) (a : list Z) :
  within rngs a -> clip_row rngs (add_row a (repeat 0 (length rngs))) = a.
Proof.
  induction 1 as [|r x rngs a Hx _ IH]; simpl; [reflexivity|].
  rewrite IH, Z.add_0_r, clip_id by assumption. reflexivity.
Qed.

Lemma candidate_within (rngs : list range) (k : Z) (z : list Z) :
  Forall wf rngs -> In z (zerone (length rngs)) ->
  within rngs (clip_row rngs (add_row (row rngs k) z)).
Proof.
  intros Hwf Hz. apply zerone_in in Hz as [Hl _].
  apply clip_row_within; [assumption|].
  rewrite add_row_length; rewrite row_length; congruence.
Qed.

(** ** What [closest] finds when the arithmetic is exact *)

Lemma closest_admissible (p : Z) (rows : list (list Z)) (r : list Z) :
  (forall r', In r' rows -> exact r') -> 0 < p < two63 ->
  closest p rows = Ok r -> lprod r <= p.
Proof.
  intros Hex Hp H. apply closest_ok in H as (Hin & v & Hv & _).
  destruct (Z_lt_le_dec p (lprod r)) as [Hlt | Hle]; [|exact Hle].
  apply (masked_nan p r (Hex _ Hin) Hp) in Hlt. congruence.
Qed.

Lemma closest_best (p : Z) (rows : list (list Z)) (r : list Z) :
  (forall r', In r' rows -> exact r') -> 0 < p <= two53 ->
  closest p rows = Ok r ->
  forall r', In r' rows -> lprod r' <= p -> lprod r' <= lprod r.
Proof.
  intros Hex Hp H r' Hin' Hle'.
  assert (Hp' : 0 < p < two63) by (unfold two53, two63 in *; lia).
  pose proof (closest_admissible _ _ _ Hex Hp' H) as Hle.
  apply closest_ok in H as (Hin & v & Hv & Hmin).
  rewrite masked_distance in Hv by auto. injection Hv as <-.
  specialize (Hmin r' (p - lprod r') Hin' (masked_distance _ _ (Hex _ Hin') Hp Hle')).
  lia.
Qed.

(** ** The solver on well-formed ranges *)

Section Solver.

Variable rngs : list range.
Variable p : Z.
Hypothesis Hwf : Forall wf rngs.
Hypothesis Hstops : lprod (stops rngs) < two63.
Hypothesis Hp : 0 < p < two63.

Lemma grid_exact (m : Z) (r : list Z) :
  0 <= m -> In r (grid rngs m) -> exact r.
Proof.
  intros Hm Hin. apply grid_in in Hin as (k & _ & ->); [|assumption].
  apply (within_exact rngs); auto using row_within.
Qed.

Lemma refine_exact (k : Z) (r : list Z) :
  In r (sort_rows (refine rngs (row rngs k))) -> exact r.
Proof.
  intros Hin. apply sort_rows_in, refine_in in Hin as (z & Hz & ->).
  apply (within_exact rngs); auto using candidate_within.
Qed.

(** Past the largest stop, and before one, the grid would repeat itself. *)
Lemma row_clamp (m k : Z) :
  py_max (stops rngs) = Ok m -> row rngs k = row rngs (Z.max 1 (Z.min k m)).
Proof.
  intros Hm. apply py_max_ok in Hm as [Hle _].
  unfold stops in Hle. rewrite Forall_map in Hle.
  unfold row. apply map_ext_in. intros r Hr.
  rewrite Forall_forall in Hwf, Hle.
  specialize (Hwf _ Hr). specialize (Hle _ Hr). unfold clip, wf in *. lia.
Qed.

Lemma max_stop_pos (m : Z) : py_max (stops rngs) = Ok m -> 1 <= m.
Proof.
  intros Hm. apply py_max_ok in Hm as [_ Hin].
  unfold stops in Hin. apply in_map_iff in Hin as (r & <- & Hr).
  rewrite Forall_forall in Hwf. specialize (Hwf _ Hr). unfold wf in Hwf. lia.
Qed.

Lemma sweep_admissible (a : list Z) : sweep rngs p = Ok a -> lprod a <= p.
Proof.
  intros H. apply sweep_ok in H as (m & k & Hm & Hk & -> & _ & H).
  apply (closest_admissible p (grid rngs m)); auto.
  intros r. apply grid_exact. lia.
Qed.

Lemma sweep_within (a : list Z) : sweep rngs p = Ok a -> within rngs a.
Proof.
  intros H. apply sweep_ok in H as (m & k & _ & _ & -> & _).
  now apply row_within.
Qed.

Lemma solver_within (t : list Z) :
  _ranges2product rngs p = Ok t -> within rngs t.
Proof.
  intros H. apply ranges2product_ok in H as (a & z & Ha & Hz & -> & _).
  apply sweep_ok in Ha as (m & k & _ & _ & -> & _).
  now apply candidate_within.
Qed.

Lemma solver_admissible (t : list Z) :
  _ranges2product rngs p = Ok t -> lprod t <= p.
Proof.
  intros H. apply ranges2product_ok in H as (a & z & Ha & Hz & _ & H).
  apply sweep_ok in Ha as (m & k & _ & _ & -> & _).
  apply (closest_admissible p _ _ (refine_exact k) Hp H).
Qed.

Lemma starts_exact : np_prod (starts rngs) = lprod (starts rngs).
Proof.
  destruct (within_exact rngs (starts rngs) Hwf Hstops (starts_within _ Hwf)).
  now apply np_prod_exact.
Qed.

Lemma sweep_total :
  rngs <> [] -> lprod (starts rngs) <= p -> exists a, sweep rngs p = Ok a.
Proof.
  intros Hne Hlo. unfold sweep.
  destruct (py_max (stops rngs)) as [m|] eqn:Em.
  2:{ destruct rngs; [congruence | discriminate]. }
  pose proof (max_stop_pos _ Em) as Hm. simpl.
  rewrite starts_exact.
  destruct (p <? lprod (starts rngs)) eqn:E1; [apply Z.ltb_lt in E1; lia|].
  destruct (m <? 0) eqn:E2; [apply Z.ltb_lt in E2; lia|].
  apply (closest_total p _ (row rngs 1)).
  - apply grid_in; [lia|]. exists 1. split; [lia | reflexivity].
  - rewrite row_one by assumption. intros Hnan.
    apply masked_nan in Hnan; [lia | | assumption].
    apply (within_exact rngs); auto using starts_within.
Qed.

Lemma solver_total :
  rngs <> [] -> lprod (starts rngs) <= p ->
  exists t, _ranges2product rngs p = Ok t.
Proof.
  intros Hne Hlo. destruct (sweep_total Hne Hlo) as [a Ha].
  unfold _ranges2product. rewrite Ha. simpl.
  pose proof (sweep_within _ Ha) as Hin.
  pose proof (sweep_admissible _ Ha) as Hle.
  apply (closest_total p _ a).
  - apply sort_rows_in, refine_in. exists (repeat 0 (length rngs)).
    split; [apply zeros_in | now rewrite clip_row_zeros].
  - intros Hnan. apply masked_nan in Hnan; [lia | | assumption].
    now apply (within_exact rngs).
Qed.

(** The solver never returns less than the product of the lower ends. *)
Lemma solver_above_starts (t : list Z) :
  _ranges2product rngs p = Ok t -> lprod (starts rngs) <= lprod t.
Proof.
  intros H. apply solver_within in H.
  apply (lprod_le _ _ (within_starts _ _ Hwf H)).
Qed.

Hypothesis Hp53 : p <= two53.

(** The sweep returns the largest product of a row under the budget. *)
Lemma sweep_best (a : list Z) (k : Z) :
  sweep rngs p = Ok a -> lprod (row rngs k) <= p ->
  lprod (row rngs k) <= lprod a.
Proof.
  intros H Hk. apply sweep_ok in H as (m & j & Hm & Hj & -> & _ & H).
  pose proof (max_stop_pos _ Hm) as Hm1.
  rewrite (row_clamp m k Hm) in *.
  apply (closest_best p (grid rngs m)); auto.
  - intros r. apply grid_exact. lia.
  - lia.
  - apply grid_in; [lia|]. exists (Z.max 1 (Z.min k m)). split; [lia|reflexivity].
Qed.

(** The refinement returns the largest product under the budget among the
    rows it builds from the row of the sweep. *)
Lemma solver_best (a t z : list Z) :
  sweep rngs p = Ok a -> _ranges2product rngs p = Ok t ->
  In z (zerone (length rngs)) ->
  lprod (clip_row rngs (add_row a z)) <= p ->
  lprod (clip_row rngs (add_row a z)) <= lprod t.
Proof.
  intros Ha H Hz Hle. unfold _ranges2product in H. rewrite Ha in H.
  simpl in H.
  apply sweep_ok in Ha as (m & k & _ & _ & -> & _).
  apply (closest_best p _ _ (refine_exact k)); auto; [lia|].
  apply sort_rows_in, refine_in. eauto.
Qed.

End Solver.

(** ** Lists read by index *)

Lemma Forall2_by_nth {A B : Type} (R : A -> B -> Prop) (d1 : A) (d2 : B)
  (l1 : list A) (l2 : list B) :
  length l1 = length l2 ->
  (forall i, (i < length l1)%nat -> R (nth i l1 d1) (nth i l2 d2)) ->
  Forall2 R l1 l2.
Proof.
  revert l2. induction l1 as [|x l1 IH]; intros [|y l2]; simpl;
    try discriminate; intros Hl H; constructor.
  - apply (H O). lia.
  - apply IH; [lia|]. intros i Hi. apply (H (S i)). lia.
Qed.

Lemma Forall2_nth_elim {A B : Type} (R : A -> B -> Prop) (d1 : A) (d2 : B)
  (l1 : list A) (l2 : list B) (i : nat) :
  Forall2 R l1 l2 -> (i < length l1)%nat -> R (nth i l1 d1) (nth i l2 d2).
Proof.
  intros H. revert i. induction H as [|x y l1 l2 Hxy _ IH]; intros i Hi;
    simpl in *; [lia|].
  destruct i; [assumption | apply IH; lia].
Qed.

Lemma enum_map_length {A B : Type} (f : nat * A -> B) (l : list A) :
  length (map f (enumerate l)) = length l.
Proof.
  unfold enumerate. rewrite length_map, length_combine, length_seq. lia.
Qed.

Lemma enum_map_nth {A B : Type} (f : nat * A -> B) (l : list A) (i : nat)
  (d : A) (e : B) :
  (i < length l)%nat -> nth i (map f (enumerate l)) e = f (i, nth i l d).
Proof.
  intros Hi. unfold enumerate.
  rewrite (nth_indep _ e (f (O, d)))
    by (rewrite length_map, length_combine, length_seq; lia).
  rewrite (map_nth f), combine_nth by (apply length_seq).
  rewrite seq_nth by assumption. reflexivity.
Qed.

(** ** The working ranges of the orchestrator *)

Lemma trial_length (rngs : list range) (axes : list Z) :
  length (trial rngs axes) = length rngs.
Proof. apply enum_map_length. Qed.

Lemma pin_length (rngs : list range) (axes : list Z) (chunks : list Z) :
  length (pin rngs axes chunks) = length rngs.
Proof. apply enum_map_length. Qed.

Lemma trial_nth (rngs : list range) (axes : list Z) (i : nat) :
  (i < length rngs)%nat ->
  nth i (trial rngs axes) no_range
  = if axis_in i axes then nth i rngs no_range
    else mkrange (start (nth i rngs no_range)) (start (nth i rngs no_range)).
Proof.
  intros Hi. unfold trial. now rewrite (enum_map_nth _ _ _ no_range).
Qed.

Lemma pin_nth (rngs : list range) (axes : list Z) (chunks : list Z) (i : nat) :
  (i < length rngs)%nat ->
  nth i (pin rngs axes chunks) no_range
  = if axis_in i axes then mkrange (nth i chunks 0) (nth i chunks 0)
    else nth i rngs no_range.
Proof.
  intros Hi. unfold pin. now rewrite (enum_map_nth _ _ _ no_range).
Qed.

Lemma free_working (shape : list Z) :
  Forall (fun s => 1 <= s) shape -> working shape (free_ranges shape).
Proof.
  induction 1 as [|s shape Hs _ IH]; simpl; constructor; [|exact IH].
  unfold held. simpl. lia.
Qed.

Lemma working_length (shape : list Z) (rngs : list range) :
  working shape rngs -> length rngs = length shape.
Proof. intros H. symmetry. exact (Forall2_length H). Qed.

Lemma working_wf (shape : list Z) (rngs : list range) :
  working shape rngs -> Forall wf rngs.
Proof.
  induction 1 as [|s r shape rngs Hr _ IH]; constructor; [|exact IH].
  unfold held, wf in *. lia.
Qed.

Lemma working_stops (shape : list Z) (rngs : list range) :
  working shape rngs -> lprod (stops rngs) <= lprod shape.
Proof.
  intros H. apply (lprod_le (stops rngs) shape).
  induction H as [|s r shape rngs Hr _ IH]; simpl; constructor; [|exact IH].
  unfold held in Hr. lia.
Qed.

Lemma trial_working (shape : list Z) (rngs : list range) (axes : list Z) :
  working shape rngs -> working shape (trial rngs axes).
Proof.
  intros H. pose proof (working_length _ _ H) as Hl.
  apply (Forall2_by_nth _ 0 no_range); [now rewrite trial_length|].
  intros i Hi. rewrite trial_nth by lia.
  pose proof (Forall2_nth_elim _ 0 no_range _ _ i H Hi) as Hr.
  destruct (axis_in i axes); [exact Hr|].
  unfold held in *. simpl. lia.
Qed.

Lemma trial_starts (rngs : list range) (axes : list Z) :
  starts (trial rngs axes) = starts rngs.
Proof.
  apply (nth_ext _ _ 0 0); unfold starts.
  - now rewrite !length_map, trial_length.
  - intros i Hi. rewrite length_map, trial_length in Hi.
    change 0 with (start no_range). rewrite !map_nth, trial_nth by assumption.
    now destruct (axis_in i axes).
Qed.

Lemma pin_working (shape : list Z) (rngs : list range) (axes chunks : list Z) :
  working shape rngs -> within (trial rngs axes) chunks ->
  working shape (pin rngs axes chunks).
Proof.
  intros H Hc. pose proof (working_length _ _ H) as Hl.
  apply (Forall2_by_nth _ 0 no_range); [now rewrite pin_length|].
  intros i Hi. rewrite pin_nth by lia.
  pose proof (Forall2_nth_elim _ 0 no_range _ _ i H Hi) as Hr.
  destruct (axis_in i axes) eqn:E; [|exact Hr].
  assert (Hi' : (i < length (trial rngs axes))%nat)
    by (rewrite trial_length; lia).
  pose proof (Forall2_nth_elim _ no_range 0 _ _ i Hc Hi') as Hx.
  simpl in Hx. rewrite trial_nth, E in Hx by lia.
  unfold held in *. simpl. lia.
Qed.

(** After a group is pinned, the lower ends of the working ranges are the
    tuple the solver returned for it. *)
Lemma pin_starts (rngs : list range) (axes chunks : list Z) :
  within (trial rngs axes) chunks ->
  starts (pin rngs axes chunks) = chunks.
Proof.
  intros Hc. pose proof (within_length _ _ Hc) as Hl.
  rewrite trial_length in Hl.
  apply (nth_ext _ _ 0 0); unfold starts.
  - now rewrite length_map, pin_length.
  - intros i Hi. rewrite length_map, pin_length in Hi.
    change 0 with (start no_range) at 1. rewrite map_nth, pin_nth by assumption.
    destruct (axis_in i axes) eqn:E; [reflexivity|].
    assert (Hi' : (i < length (trial rngs axes))%nat)
      by (rewrite trial_length; lia).
    pose proof (Forall2_nth_elim _ no_range 0 _ _ i Hc Hi') as Hx.
    simpl in Hx. rewrite trial_nth, E in Hx by lia. simpl in Hx. lia.
Qed.

(** ** The orchestrator keeps its ranges in shape *)

Lemma pin_groups_working (shape : list Z) (numel : Z) (plan : list pref)
  (rngs rngs' : list range) :
  working shape rngs -> pin_groups rngs numel plan = Ok rngs' ->
  working shape rngs'.
Proof.
  revert rngs. induction plan as [|g plan IH]; intros rngs Hw; simpl.
  - now intros [= <-].
  - destruct (_ranges2product (trial rngs (axes_of g)) numel) as [chunks|] eqn:E;
      [|discriminate].
    simpl. apply IH. apply pin_working; [assumption|].
    apply (solver_within _ numel); [|assumption].
    eapply working_wf, trial_working; eassumption.
Qed.

Lemma working_fits (shape : list Z) (rngs : list range) (numel : Z) :
  fits shape numel -> working shape rngs -> lprod (stops rngs) < two63.
Proof.
  intros [Hs _] Hw. pose proof (working_stops _ _ Hw). lia.
Qed.

Lemma pin_groups_budget (shape : list Z) (numel : Z) (plan : list pref)
  (rngs rngs' : list range) :
  fits shape numel -> working shape rngs -> lprod (starts rngs) <= numel ->
  pin_groups rngs numel plan = Ok rngs' ->
  lprod (starts rngs') <= numel.
Proof.
  intros Hf. revert rngs. induction plan as [|g plan IH]; intros rngs Hw Hlo;
    simpl.
  - now intros [= <-].
  - destruct (_ranges2product (trial rngs (axes_of g)) numel) as [chunks|] eqn:E;
      [|discriminate].
    simpl. pose proof (trial_working _ _ (axes_of g) Hw) as Hw'.
    pose proof (working_wf _ _ Hw') as Hwf'.
    pose proof (solver_within _ _ Hwf' _ E) as Hin.
    apply IH; [now apply pin_working|].
    rewrite pin_starts by assumption.
    apply (solver_admissible (trial rngs (axes_of g))); auto.
    + eapply working_fits; eassumption.
    + apply Hf.
Qed.

Lemma pin_groups_total (shape : list Z) (numel : Z) (plan : list pref)
  (rngs : list range) :
  fits shape numel -> working shape rngs -> rngs <> [] ->
  lprod (starts rngs) <= numel ->
  exists rngs', pin_groups rngs numel plan = Ok rngs'.
Proof.
  intros Hf. revert rngs. induction plan as [|g plan IH];
    intros rngs Hw Hne Hlo; simpl; [eauto|].
  pose proof (trial_working _ _ (axes_of g) Hw) as Hw'.
  pose proof (working_wf _ _ Hw') as Hwf'.
  pose proof (working_fits _ _ _ Hf Hw') as Hb'.
  destruct (solver_total (trial rngs (axes_of g)) numel Hwf' Hb' (proj2 Hf))
    as [chunks E].
  - intros Hnil. apply Hne. apply length_zero_iff_nil.
    rewrite <- (trial_length rngs (axes_of g)), Hnil. reflexivity.
  - now rewrite trial_starts.
  - rewrite E. simpl.
    pose proof (solver_within _ _ Hwf' _ E) as Hin.
    apply IH; [now apply pin_working | |].
    + intros Hnil. apply Hne. apply length_zero_iff_nil.
      rewrite <- (pin_length rngs (axes_of g) chunks), Hnil. reflexivity.
    + rewrite pin_starts by assumption.
      apply (solver_admissible (trial rngs (axes_of g))); auto. apply Hf.
Qed.

Lemma free_starts (shape : list Z) : lprod (starts (free_ranges shape)) = 1.
Proof.
  unfold starts, free_ranges. rewrite map_map. simpl.
  induction shape as [|s shape IH]; simpl; [reflexivity|].
  rewrite IH. reflexivity.
Qed.

(** How a call that returns went through the function. *)
Lemma shape2chunk_ok (shape : list Z) (numel : Z) (pa : option (list pref))
  (chunk : list Z) :
  shape2chunk shape numel pa = Ok chunk ->
  numel <> 0 /\
  exists rngs, pin_groups (free_ranges shape) numel (plan_of pa) = Ok rngs /\
               _ranges2product rngs numel = Ok chunk.
Proof.
  unfold shape2chunk. destruct (existsb (Z.eqb 0) shape); [discriminate|].
  destruct (numel =? 0) eqn:E; [discriminate|]. apply Z.eqb_neq in E.
  destruct (pin_groups (free_ranges shape) numel (plan_of pa)) as [rngs|];
    [|discriminate].
  simpl. eauto.
Qed.

Lemma no_zero_axis (shape : list Z) :
  Forall (fun s => 1 <= s) shape -> existsb (Z.eqb 0) shape = false.
Proof.
  induction 1 as [|s shape Hs _ IH]; cbn [existsb]; [reflexivity|].
  rewrite IH. destruct (Z.eqb_spec 0 s); [lia | reflexivity].
Qed.


Lemma working_within (shape : list Z) (rngs : list range) (t : list Z) :
  working shape rngs -> within rngs t ->
  Forall2 (fun c s => 1 <= c <= s) t shape.
Proof.
  intros Hw. revert t. induction Hw as [|s r shape rngs Hr _ IH]; intros t Ht;
    inversion Ht as [|? x ? t' Hx Ht']; subst; constructor.
  - unfold held in Hr. lia.
  - now apply IH.
Qed.

(** ** Coordinates of the rows *)

Lemma nth_row (rngs : list range) (k : Z) (i : nat) :
  (i < length rngs)%nat ->
  nth i (row rngs k) 0
  = clip k (start (nth i rngs no_range)) (stop (nth i rngs no_range)).
Proof.
  revert i. induction rngs as [|r rngs IH]; intros i Hi; simpl in *; [lia|].
  destruct i; [reflexivity | apply IH; lia].
Qed.

Lemma nth_add_row (a z : list Z) (i : nat) :
  (i < length a)%nat -> length a = length z ->
  nth i (add_row a z) 0 = nth i a 0 + nth i z 0.
Proof.
  revert z i. induction a as [|x a IH]; intros [|y z] i Hi Hl; simpl in *;
    try lia.
  destruct i; [reflexivity | apply IH; lia].
Qed.

Lemma nth_clip_row (rngs : list range) (a : list Z) (i : nat) :
  (i < length rngs)%nat -> length a = length rngs ->
  nth i (clip_row rngs a) 0
  = clip (nth i a 0) (start (nth i rngs no_range)) (stop (nth i rngs no_range)).
Proof.
  revert a i. induction rngs as [|r rngs IH]; intros [|x a] i Hi Hl;
    simpl in *; try lia.
  destruct i; [reflexivity | apply IH; lia].
Qed.

Lemma nth_free (shape : list Z) (i : nat) :
  (i < length shape)%nat ->
  nth i (free_ranges shape) no_range = mkrange 1 (nth i shape 0).
Proof.
  intros Hi. unfold free_ranges.
  rewrite (nth_indep _ no_range (mkrange 1 0)) by (now rewrite length_map).
  apply (map_nth (fun size => mkrange 1 size)).
Qed.

Lemma bits_nth (z : list Z) (i : nat) :
  bits z -> nth i z 0 = 0 \/ nth i z 0 = 1.
Proof.
  intros H. revert i. induction H as [|b z Hb _ IH]; intros [|i]; simpl; auto.
Qed.

(** A coordinate of a row of the refinement: the sweep's target, clipped,
    plus zero or one, clipped again. *)
Lemma nth_candidate (rngs : list range) (k : Z) (z : list Z) (i : nat) :
  (i < length rngs)%nat -> In z (zerone (length rngs)) ->
  exists b, (b = 0 \/ b = 1) /\
    nth i (clip_row rngs (add_row (row rngs k) z)) 0
    = clip (clip k (start (nth i rngs no_range)) (stop (nth i rngs no_range)) + b)
        (start (nth i rngs no_range)) (stop (nth i rngs no_range)).
Proof.
  intros Hi Hz. apply zerone_in in Hz as [Hl Hb].
  exists (nth i z 0). split; [now apply bits_nth|].
  assert (Hla : length (add_row (row rngs k) z) = length rngs)
    by (rewrite add_row_length; rewrite row_length; congruence).
  rewrite nth_clip_row by assumption.
  rewrite nth_add_row by (rewrite row_length; (assumption || congruence)).
  now rewrite nth_row by assumption.
Qed.

(** What the solver returns, coordinate by coordinate. *)
Lemma solver_nth (rngs : list range) (p : Z) (t : list Z) :
  _ranges2product rngs p = Ok t ->
  exists k, forall i, (i < length rngs)%nat ->
    exists b, (b = 0 \/ b = 1) /\
      nth i t 0
      = clip (clip k (start (nth i rngs no_range)) (stop (nth i rngs no_range)) + b)
          (start (nth i rngs no_range)) (stop (nth i rngs no_range)).
Proof.
  intros H. apply ranges2product_ok in H as (a & z & Ha & Hz & -> & _).
  apply sweep_ok in Ha as (m & k & _ & _ & -> & _).
  exists k. intros i Hi. now apply nth_candidate.
Qed.

Lemma solver_length (rngs : list range) (p : Z) (t : list Z) :
  _ranges2product rngs p = Ok t -> length t = length rngs.
Proof.
  intros H. apply ranges2product_ok in H as (a & z & Ha & Hz & -> & _).
  apply sweep_ok in Ha as (m & k & _ & _ & -> & _).
  apply zerone_in in Hz as [Hl _].
  clear - Hl. revert z Hl. induction rngs as [|r rngs IH]; intros [|b z] Hl;
    simpl in *; try lia; try reflexivity.
  f_equal. apply IH. lia.
Qed.

(** A pinned dimension comes back with its pinned value. *)
Lemma solver_pinned (rngs : list range) (p : Z) (t : list Z) (i : nat) (v : Z) :
  _ranges2product rngs p = Ok t -> (i < length rngs)%nat ->
  nth i rngs no_range = mkrange v v -> nth i t 0 = v.
Proof.
  intros H Hi Hr. apply solver_nth in H as [k H].
  destruct (H i Hi) as (b & _ & ->). rewrite Hr. simpl. unfold clip. lia.
Qed.

(** ** Pins *)

Lemma pin_groups_app (rngs : list range) (numel : Z) (p1 p2 : list pref) :
  pin_groups rngs numel (p1 ++ p2)
  = (r1 <- pin_groups rngs numel p1 ;; pin_groups r1 numel p2).
Proof.
  revert rngs. induction p1 as [|g p1 IH]; intros rngs; simpl; [reflexivity|].
  destruct (_ranges2product (trial rngs (axes_of g)) numel); simpl; auto.
Qed.

Lemma pin_groups_length (rngs rngs' : list range) (numel : Z)
  (plan : list pref) :
  pin_groups rngs numel plan = Ok rngs' -> length rngs' = length rngs.
Proof.
  revert rngs. induction plan as [|g plan IH]; intros rngs; simpl.
  - now intros [= <-].
  - destruct (_ranges2product (trial rngs (axes_of g)) numel); [|discriminate].
    simpl. intros H. rewrite (IH _ H). apply pin_length.
Qed.

(** One pass of the loop leaves a pinned dimension at its value. *)
Lemma pin_pinned (rngs : list range) (numel : Z) (axes chunks : list Z)
  (i : nat) (v : Z) :
  _ranges2product (trial rngs axes) numel = Ok chunks ->
  (i < length rngs)%nat -> nth i rngs no_range = mkrange v v ->
  nth i chunks 0 = v /\ nth i (pin rngs axes chunks) no_range = mkrange v v.
Proof.
  intros H Hi Hr.
  assert (Hc : nth i chunks 0 = v).
  { apply (solver_pinned _ _ _ i v H); [now rewrite trial_length|].
    rewrite trial_nth, Hr by assumption. now destruct (axis_in i axes). }
  split; [exact Hc|].
  rewrite pin_nth, Hc, Hr by assumption. now destruct (axis_in i axes).
Qed.

Lemma pinned_stays (rngs rngs' : list range) (numel : Z) (plan : list pref)
  (i : nat) (v : Z) :
  pin_groups rngs numel plan = Ok rngs' ->
  (i < length rngs)%nat -> nth i rngs no_range = mkrange v v ->
  nth i rngs' no_range = mkrange v v.
Proof.
  revert rngs. induction plan as [|g plan IH]; intros rngs; simpl.
  - now intros [= <-].
  - destruct (_ranges2product (trial rngs (axes_of g)) numel) as [chunks|] eqn:E;
      [|discriminate].
    simpl. intros H Hi Hr. apply (IH _ H); [now rewrite pin_length|].
    now apply (pin_pinned rngs numel).
Qed.

Lemma pin_groups_untouched (rngs rngs' : list range) (numel : Z)
  (plan : list pref) (i : nat) :
  pin_groups rngs numel plan = Ok rngs' -> (i < length rngs)%nat ->
  mentioned i plan = false ->
  nth i rngs' no_range = nth i rngs no_range.
Proof.
  revert rngs. induction plan as [|g plan IH]; intros rngs; simpl.
  - now intros [= <-].
  - destruct (_ranges2product (trial rngs (axes_of g)) numel) as [chunks|] eqn:E;
      [|discriminate].
    simpl. intros H Hi Hm. apply orb_false_iff in Hm as [Hg Hm].
    rewrite (IH _ H) by (rewrite ?pin_length; assumption).
    now rewrite pin_nth, Hg.
Qed.

Lemma pin_groups_pinned (rngs rngs' : list range) (numel : Z)
  (plan : list pref) (i : nat) :
  pin_groups rngs numel plan = Ok rngs' -> (i < length rngs)%nat ->
  mentioned i plan = true ->
  exists v, nth i rngs' no_range = mkrange v v.
Proof.
  revert rngs. induction plan as [|g plan IH]; intros rngs; simpl;
    [discriminate|].
  destruct (_ranges2product (trial rngs (axes_of g)) numel) as [chunks|] eqn:E;
    [|discriminate].
  simpl. intros H Hi Hm.
  destruct (axis_in i (axes_of g)) eqn:Hg.
  - exists (nth i chunks 0).
    apply (pinned_stays _ _ _ _ _ _ H); [now rewrite pin_length|].
    now rewrite pin_nth, Hg.
  - simpl in Hm. apply (IH _ H); [now rewrite pin_length | assumption].
Qed.

(** ** Budgets below one *)

Lemma np_prod_free (shape : list Z) :
  np_prod (starts (free_ranges shape)) = 1.
Proof. now rewrite np_prod_wrap, free_starts. Qed.

Lemma solver_negative (rngs : list range) (numel : Z) :
  numel < 0 -> np_prod (starts rngs) = 1 ->
  _ranges2product rngs numel
  = Raise (match rngs with [] => EmptyMax | _ => SmallerProduct end).
Proof.
  intros Hn H1. unfold _ranges2product, sweep.
  destruct rngs as [|r rngs]; [reflexivity|].
  cbn [stops map py_max bind]. rewrite H1.
  destruct (Z.ltb_spec numel 1); [reflexivity | lia].
Qed.

(** ** The whole range *)

Lemma row_top (rngs : list range) (m : Z) :
  Forall wf rngs -> py_max (stops rngs) = Ok m -> row rngs m = stops rngs.
Proof.
  intros Hwf Hm. apply py_max_ok in Hm as [Hle _].
  unfold stops in *. rewrite Forall_map in Hle.
  unfold row. apply map_ext_in. intros r Hr.
  rewrite Forall_forall in Hwf, Hle.
  specialize (Hwf _ Hr). specialize (Hle _ Hr). unfold clip, wf in *. lia.
Qed.

Lemma within_top (rngs : list range) (t : list Z) :
  Forall wf rngs -> within rngs t -> lprod (stops rngs) <= lprod t ->
  t = stops rngs.
Proof.
  intros Hwf Ht Hle. apply lprod_le_eq; [|assumption].
  now apply within_stops.
Qed.

(** A budget that every upper end fits in gives the upper ends. *)
Lemma solver_saturates (rngs : list range) (p : Z) :
  Forall wf rngs -> rngs <> [] ->
  lprod (stops rngs) <= p -> 0 < p <= two53 ->
  _ranges2product rngs p = Ok (stops rngs).
Proof.
  intros Hwf Hne Hle Hp.
  assert (Hb : lprod (stops rngs) < two63) by (unfold two53, two63 in *; lia).
  assert (Hp' : 0 < p < two63) by (unfold two53, two63 in *; lia).
  assert (Hlo : lprod (starts rngs) <= p).
  { pose proof (lprod_le _ _ (within_stops _ _ Hwf (starts_within _ Hwf))).
    lia. }
  destruct (solver_total rngs p Hwf Hb Hp' Hne Hlo) as [t Ht].
  rewrite Ht. f_equal.
  destruct (ranges2product_ok _ _ _ Ht) as (a & z & Ha & _).
  destruct (sweep_ok _ _ _ Ha) as (m & k & Hm & _).
  assert (Ea : a = stops rngs).
  { apply within_top; [assumption | now apply (sweep_within rngs p) |].
    rewrite <- (row_top rngs m Hwf Hm).
    apply (sweep_best rngs p Hwf Hb Hp' (proj2 Hp) a m Ha).
    rewrite row_top by assumption. exact Hle. }
  apply within_top; [assumption | now apply (solver_within rngs p) |].
  pose proof (solver_best rngs p Hwf Hb Hp' (proj2 Hp) a t
                (repeat 0 (length rngs)) Ha Ht (zeros_in _)) as Hz.
  rewrite clip_row_zeros in Hz by (now apply (sweep_within rngs p)).
  rewrite <- Ea. apply Hz. rewrite Ea. exact Hle.
Qed.

Lemma free_length (shape : list Z) :
  length (free_ranges shape) = length shape.
Proof. apply length_map. Qed.

Lemma free_stops (shape : list Z) : stops (free_ranges shape) = shape.
Proof.
  unfold stops, free_ranges. rewrite map_map. simpl. apply map_id.
Qed.

(** ** Groups that are already pinned *)

Lemma range_eta (r : range) (v : Z) :
  start r = v -> stop r = v -> r = mkrange v v.
Proof. destruct r; simpl; congruence. Qed.

(** The solver on pinned ranges returns the pins. *)
Lemma solver_all_pinned (rngs : list range) (p : Z) :
  Forall wf rngs -> rngs <> [] -> lprod (stops rngs) < two63 ->
  0 < p < two63 -> lprod (starts rngs) <= p ->
  Forall (fun r => start r = stop r) rngs ->
  _ranges2product rngs p = Ok (starts rngs).
Proof.
  intros Hwf Hne Hb Hp Hlo Hpin.
  destruct (solver_total rngs p Hwf Hb Hp Hne Hlo) as [t Ht].
  rewrite Ht. f_equal.
  pose proof (solver_length _ _ _ Ht) as Hl.
  apply (nth_ext _ _ 0 0); unfold starts; [now rewrite length_map|].
  intros i Hi. change 0 with (start no_range) at 2. rewrite map_nth.
  apply (solver_pinned rngs p t i); [assumption | lia |].
  rewrite Forall_forall in Hpin.
  apply range_eta; [reflexivity|]. symmetry. apply Hpin, nth_In. lia.
Qed.

(** A group all of whose dimensions are pinned leaves the loop where it
    was. *)
Lemma group_noop (shape : list Z) (rngs : list range) (numel : Z) (g : pref)
  (rest : list pref) :
  fits shape numel -> working shape rngs -> rngs <> [] ->
  lprod (starts rngs) <= numel ->
  (forall i, (i < length rngs)%nat -> axis_in i (axes_of g) = true ->
             exists v, nth i rngs no_range = mkrange v v) ->
  pin_groups rngs numel (g :: rest) = pin_groups rngs numel rest.
Proof.
  intros Hf Hw Hne Hlo Hpin. simpl.
  pose proof (trial_working _ _ (axes_of g) Hw) as Hw'.
  assert (Hne' : trial rngs (axes_of g) <> []).
  { intros Hnil. apply Hne, length_zero_iff_nil.
    rewrite <- (trial_length rngs (axes_of g)), Hnil. reflexivity. }
  rewrite solver_all_pinned.
  - simpl. f_equal. rewrite trial_starts.
    apply (nth_ext _ _ no_range no_range); [apply pin_length|].
    intros i Hi. rewrite pin_length in Hi. rewrite pin_nth by assumption.
    destruct (axis_in i (axes_of g)) eqn:E; [|reflexivity].
    destruct (Hpin i Hi E) as [v Hv].
    unfold starts. change 0 with (start no_range). rewrite map_nth, Hv.
    reflexivity.
  - eapply working_wf; eassumption.
  - assumption.
  - eapply working_fits; eassumption.
  - apply Hf.
  - now rewrite trial_starts.
  - apply Forall_nth. intros i d Hi. rewrite trial_length in Hi.
    rewrite (nth_indep _ d no_range) by (now rewrite trial_length).
    rewrite trial_nth by assumption.
    destruct (axis_in i (axes_of g)) eqn:E; [|reflexivity].
    destruct (Hpin i Hi E) as [v ->]. reflexivity.
Qed.

Lemma run_empty (numel : Z) (plan : list pref) :
  run [] numel plan = Raise EmptyMax.
Proof. destruct plan; reflexivity. Qed.

Lemma run_app (rngs : list range) (numel : Z) (p1 p2 : list pref) :
  run rngs numel (p1 ++ p2)
  = (r1 <- pin_groups rngs numel p1 ;; run r1 numel p2).
Proof.
  unfold run. rewrite pin_groups_app.
  destruct (pin_groups rngs numel p1); reflexivity.
Qed.

Lemma shape2chunk_run (shape : list Z) (numel : Z) (pa : option (list pref)) :
  Forall (fun s => 1 <= s) shape -> numel <> 0 ->
  shape2chunk shape numel pa = run (free_ranges shape) numel (plan_of pa).
Proof.
  intros Hs Hn. unfold shape2chunk. rewrite no_zero_axis by assumption.
  destruct (Z.eqb_spec numel 0); [contradiction | reflexivity].
Qed.

(** ** Growing budgets *)

Lemma working_simple (shape : list Z) (rngs : list range) :
  working shape rngs -> Forall simple rngs.
Proof.
  induction 1 as [|s r shape rngs Hr _ IH]; constructor; [|exact IH].
  unfold held, simple in *. lia.
Qed.

Lemma simple_wf (rngs : list range) : Forall simple rngs -> Forall wf rngs.
Proof.
  apply Forall_impl. intros r Hr. unfold simple, wf in *. lia.
Qed.

Lemma row_mono (rngs : list range) (k k' : Z) :
  Forall wf rngs -> k <= k' ->
  Forall2 (fun x y => 1 <= x <= y) (row rngs k) (row rngs k').
Proof.
  intros Hwf Hk. induction Hwf as [|r rngs Hr _ IH]; simpl; constructor;
    [|exact IH].
  unfold clip, wf in *. lia.
Qed.

(** A refined row is below the next row of the grid. *)
Lemma candidate_below_next (rngs : list range) (k : Z) (z : list Z) :
  Forall simple rngs -> 1 <= k -> bits z -> length z = length rngs ->
  Forall2 (fun x y => 1 <= x <= y)
    (clip_row rngs (add_row (row rngs k) z)) (row rngs (k + 1)).
Proof.
  intros Hs Hk. revert z. induction Hs as [|r rngs Hr _ IH]; intros z Hb Hl.
  - constructor.
  - destruct z as [|b z]; [discriminate|]. simpl.
    inversion Hb as [|? ? Hb0 Hbz]; subst. constructor.
    + unfold clip, simple in *. lia.
    + apply IH; [assumption | simpl in Hl; lia].
Qed.

(** A row of the grid that the next one repeats is the row of upper ends. *)
Lemma row_fixed (rngs : list range) (k : Z) :
  Forall simple rngs -> 1 <= k -> row rngs k = row rngs (k + 1) ->
  row rngs k = stops rngs.
Proof.
  intros Hs Hk. induction Hs as [|r rngs Hr _ IH]; simpl; [reflexivity|].
  intros [= E1 E2]. f_equal; [|now apply IH].
  unfold clip, simple in *. lia.
Qed.

(** From a refined row, either one more coordinate can be raised, which at
    most doubles the product, or the row is already above the next row of
    the grid. *)
Lemma bump_or_next (rngs : list range) (k : Z) (z : list Z) :
  Forall simple rngs -> 1 <= k -> bits z -> length z = length rngs ->
  (exists z', bits z' /\ length z' = length rngs /\
     lprod (clip_row rngs (add_row (row rngs k) z))
     < lprod (clip_row rngs (add_row (row rngs k) z'))
     <= 2 * lprod (clip_row rngs (add_row (row rngs k) z)))
  \/ Forall2 (fun x y => 1 <= x <= y)
       (row rngs (k + 1)) (clip_row rngs (add_row (row rngs k) z)).
Proof.
  intros Hs Hk. revert z. induction Hs as [|r rngs Hr Hs IH]; intros z Hb Hl.
  - right. destruct z; constructor.
  - destruct z as [|b z]; [discriminate|].
    inversion Hb as [|? ? Hb0 Hbz]; subst. simpl in Hl.
    assert (Hlz : length z = length rngs) by lia.
    assert (Hpos : 1 <= lprod (clip_row rngs (add_row (row rngs k) z))).
    { apply lprod_pos. apply (within_pos rngs); [now apply simple_wf|].
      apply candidate_within; [now apply simple_wf|].
      apply zerone_in. auto. }
    cbn [row map add_row clip_row lprod fold_right length].
    fold (row rngs k). fold (row rngs (k + 1)).
    fold (lprod (clip_row rngs (add_row (row rngs k) z))).
    set (T := lprod (clip_row rngs (add_row (row rngs k) z))) in *.
    set (lo := start r) in *. set (hi := stop r) in *.
    destruct (Z_lt_le_dec (clip (clip k lo hi + b) lo hi) (clip (k + 1) lo hi))
      as [Hlt | Hge].
    + left. exists (1 :: z). split; [constructor; auto|].
      split; [simpl; lia|].
      cbn [add_row clip_row lprod fold_right]. fold (row rngs k).
      fold (lprod (clip_row rngs (add_row (row rngs k) z))). fold T.
      assert (E : clip (clip k lo hi + 1) lo hi = clip (clip k lo hi + b) lo hi + 1
                  /\ 1 <= clip (clip k lo hi + b) lo hi)
        by (unfold clip, simple in *; lia).
      destruct E as [-> E]. nia.
    + assert (H1 : 1 <= clip (k + 1) lo hi)
        by (unfold clip, simple in *; lia).
      destruct (IH z Hbz Hlz) as [(z' & Hb' & Hl' & Hz') | Hall].
      * left. exists (b :: z'). split; [constructor; auto|].
        split; [simpl; lia|].
        cbn [add_row clip_row lprod fold_right]. fold (row rngs k).
        fold (lprod (clip_row rngs (add_row (row rngs k) z'))). fold T.
        nia.
      * right. constructor; [lia | exact Hall].
Qed.

(** Unless the solver returns the upper ends, it uses more than half of the
    budget. *)
Lemma solver_half (rngs : list range) (p : Z) (t : list Z) :
  Forall simple rngs -> lprod (stops rngs) < two63 -> 0 < p <= two53 ->
  _ranges2product rngs p = Ok t -> t <> stops rngs -> p < 2 * lprod t.
Proof.
  intros Hs Hb Hp Ht Hne.
  pose proof (simple_wf _ Hs) as Hwf.
  assert (Hp' : 0 < p < two63) by (unfold two53, two63 in *; lia).
  destruct (ranges2product_ok _ _ _ Ht) as (a & z & Ha & Hz & Et & _).
  destruct (sweep_ok _ _ _ Ha) as (m & k & Hm & Hk & Ea & _).
  pose proof (solver_admissible rngs p Hwf Hb Hp' t Ht) as Hadm.
  destruct (Z_lt_le_dec p (2 * lprod t)) as [|Hle]; [assumption|exfalso].
  pose proof Hz as Hz0. apply zerone_in in Hz0 as [Hl Hbits]. subst a.
  destruct (bump_or_next rngs k z Hs (proj1 Hk) Hbits Hl)
    as [(z' & Hb' & Hl' & Hz') | Hall]; rewrite <- Et in *.
  - assert (Hin : In z' (zerone (length rngs))) by (apply zerone_in; auto).
    pose proof (solver_best rngs p Hwf Hb Hp' (proj2 Hp) _ t z' Ha Ht Hin).
    lia.
  - pose proof (lprod_le _ _ Hall) as Hnext.
    pose proof (sweep_best rngs p Hwf Hb Hp' (proj2 Hp) _ (k + 1) Ha) as Hbest.
    assert (Erow : row rngs k = row rngs (k + 1)).
    { apply lprod_le_eq; [apply row_mono; [assumption | lia] | lia]. }
    apply (row_fixed rngs k Hs (proj1 Hk)) in Erow.
    apply Hne. apply within_top; [assumption | now apply (solver_within rngs p) |].
    pose proof (solver_best rngs p Hwf Hb Hp' (proj2 Hp) _ t
                  (repeat 0 (length rngs)) Ha Ht (zeros_in _)) as Hz0.
    rewrite clip_row_zeros in Hz0 by (now apply row_within).
    rewrite <- Erow. apply Hz0.
    apply (sweep_admissible rngs p Hwf Hb Hp' _ Ha).
Qed.

(** On the same ranges a larger budget gives a product at least as large. *)
Lemma solver_mono (rngs : list range) (p1 p2 : Z) (t1 t2 : list Z) :
  Forall simple rngs -> lprod (stops rngs) < two63 ->
  0 < p1 -> p1 <= p2 -> p2 <= two53 ->
  _ranges2product rngs p1 = Ok t1 -> _ranges2product rngs p2 = Ok t2 ->
  lprod t1 <= lprod t2.
Proof.
  intros Hs Hb Hp1 Hle Hp2 H1 H2.
  pose proof (simple_wf _ Hs) as Hwf.
  assert (Hq1 : 0 < p1 < two63) by (unfold two53, two63 in *; lia).
  assert (Hq2 : 0 < p2 < two63) by (unfold two53, two63 in *; lia).
  destruct (ranges2product_ok _ _ _ H1) as (a1 & z1 & Ha1 & Hz1 & Et1 & _).
  destruct (ranges2product_ok _ _ _ H2) as (a2 & z2 & Ha2 & Hz2 & Et2 & _).
  destruct (sweep_ok _ _ _ Ha1) as (m1 & k1 & _ & Hk1 & Ea1 & _).
  destruct (sweep_ok _ _ _ Ha2) as (m2 & k2 & _ & Hk2 & Ea2 & _).
  pose proof (sweep_admissible rngs p1 Hwf Hb Hq1 _ Ha1) as Hadm1.
  pose proof (sweep_admissible rngs p2 Hwf Hb Hq2 _ Ha2) as Hadm2.
  pose proof (solver_admissible rngs p1 Hwf Hb Hq1 _ H1) as Hadt1.
  assert (Hbase : lprod a2 <= lprod t2).
  { pose proof (solver_best rngs p2 Hwf Hb Hq2 Hp2 _ t2
                  (repeat 0 (length rngs)) Ha2 H2 (zeros_in _)) as Hz.
    rewrite clip_row_zeros in Hz by (now apply (sweep_within rngs p2)).
    now apply Hz. }
  assert (Hrow : lprod a1 <= lprod a2).
  { rewrite Ea1. apply (sweep_best rngs p2 Hwf Hb Hq2 Hp2 _ k1 Ha2).
    rewrite <- Ea1. lia. }
  destruct (Z_le_gt_dec k2 k1) as [Hk | Hk].
  - assert (E : a2 = a1).
    { rewrite Ea1, Ea2. apply lprod_le_eq; [now apply row_mono|].
      rewrite <- Ea1, <- Ea2. exact Hrow. }
    rewrite E in Ha2. rewrite Et1.
    apply (solver_best rngs p2 Hwf Hb Hq2 Hp2 a1 t2 z1 Ha2 H2 Hz1).
    rewrite <- Et1. lia.
  - apply zerone_in in Hz1 as [Hl1 Hb1].
    pose proof (candidate_below_next rngs k1 z1 Hs (proj1 Hk1) Hb1 Hl1) as Hc.
    apply lprod_le in Hc.
    pose proof (lprod_le _ _ (row_mono rngs (k1 + 1) k2 Hwf ltac:(lia))) as Hr.
    rewrite Et1, Ea1. rewrite Ea2 in Hbase. lia.
Qed.

(** With less than twice the product of the lower ends as budget, nothing
    can be raised. *)
Lemma stuck_starts (rngs : list range) (t : list Z) :
  Forall simple rngs -> within rngs t ->
  lprod t < 2 * lprod (starts rngs) -> t = starts rngs.
Proof.
  intros Hs Ht. induction Ht as [|r x rngs t Hx Ht IH]; [reflexivity|].
  inversion Hs as [|? ? Hr Hs']; subst. intros Hlt.
  assert (Hlt' : x * lprod t < 2 * (start r * lprod (starts rngs)))
    by exact Hlt.
  clear Hlt. pose proof (simple_wf _ Hs') as Hwf.
  pose proof (lprod_le _ _ (within_starts _ _ Hwf Ht)) as Hle.
  set (T := lprod t) in *. set (S := lprod (starts rngs)) in *.
  destruct Hr as [Hr1 Hr2].
  assert (E : x = start r).
  { destruct Hr2 as [Hr2 | Hr2]; [lia|].
    destruct (Z.eq_dec x 1) as [-> | Hx1]; [lia|].
    assert (2 * T <= x * T) by nia. lia. }
  subst x. cbn [starts map]. f_equal. apply IH; [assumption|].
  fold S. nia.
Qed.

Lemma solver_stuck (rngs : list range) (p : Z) (t : list Z) :
  Forall simple rngs -> lprod (stops rngs) < two63 -> 0 < p < two63 ->
  p < 2 * lprod (starts rngs) ->
  _ranges2product rngs p = Ok t -> t = starts rngs.
Proof.
  intros Hs Hb Hp Hlt Ht. pose proof (simple_wf _ Hs) as Hwf.
  apply stuck_starts; [assumption | now apply (solver_within rngs p) |].
  pose proof (solver_admissible rngs p Hwf Hb Hp t Ht). lia.
Qed.

Lemma run_cons (rngs : list range) (numel : Z) (g : pref) (rest : list pref) :
  run rngs numel (g :: rest)
  = (chunks <- _ranges2product (trial rngs (axes_of g)) numel ;;
     run (pin rngs (axes_of g) chunks) numel rest).
Proof.
  unfold run. simpl.
  destruct (_ranges2product (trial rngs (axes_of g)) numel); reflexivity.
Qed.

(** Once the pins use more than half of the budget the call returns them. *)
Lemma run_stuck (shape : list Z) (numel : Z) (plan : list pref)
  (rngs : list range) (c : list Z) :
  fits shape numel -> working shape rngs ->
  numel < 2 * lprod (starts rngs) ->
  run rngs numel plan = Ok c -> c = starts rngs.
Proof.
  intros Hf. revert rngs. induction plan as [|g plan IH]; intros rngs Hw Hlt.
  - unfold run. simpl. apply solver_stuck; auto.
    + eapply working_simple; eassumption.
    + eapply working_fits; eassumption.
    + apply Hf.
  - rewrite run_cons.
    destruct (_ranges2product (trial rngs (axes_of g)) numel) as [chunks|] eqn:E;
      [|discriminate].
    simpl. intros H.
    pose proof (trial_working _ _ (axes_of g) Hw) as Hw'.
    pose proof (solver_within _ numel (working_wf _ _ Hw') _ E) as Hin.
    assert (Ec : chunks = starts rngs).
    { rewrite <- (trial_starts rngs (axes_of g)).
      apply (solver_stuck _ numel); auto.
      - eapply working_simple; eassumption.
      - eapply working_fits; eassumption.
      - apply Hf.
      - now rewrite trial_starts. }
    rewrite <- Ec, <- (pin_starts rngs (axes_of g) chunks Hin).
    apply IH; [now apply pin_working | | assumption].
    rewrite pin_starts, Ec by assumption. exact Hlt.
Qed.

(** The product of the pins never goes down along the loop. *)
Lemma run_above_starts (shape : list Z) (numel : Z) (plan : list pref)
  (rngs : list range) (c : list Z) :
  working shape rngs -> run rngs numel plan = Ok c ->
  lprod (starts rngs) <= lprod c.
Proof.
  revert rngs. induction plan as [|g plan IH]; intros rngs Hw.
  - unfold run. simpl. apply solver_above_starts.
    eapply working_wf; eassumption.
  - rewrite run_cons.
    destruct (_ranges2product (trial rngs (axes_of g)) numel) as [chunks|] eqn:E;
      [|discriminate].
    simpl. intros H.
    pose proof (trial_working _ _ (axes_of g) Hw) as Hw'.
    pose proof (solver_within _ numel (working_wf _ _ Hw') _ E) as Hin.
    pose proof (solver_above_starts _ numel (working_wf _ _ Hw') _ E) as Hab.
    rewrite trial_starts in Hab.
    pose proof (IH _ (pin_working _ _ _ _ Hw Hin) H) as Hrest.
    rewrite pin_starts in Hrest by assumption. lia.
Qed.

(** Two runs of the loop from the same working ranges, the second with the
    larger budget. *)
Lemma run_mono (shape : list Z) (n1 n2 : Z) (plan : list pref)
  (rngs : list range) (c1 c2 : list Z) :
  lprod shape < two63 -> 0 < n1 -> n1 <= n2 -> n2 <= two53 ->
  working shape rngs ->
  run rngs n1 plan = Ok c1 -> run rngs n2 plan = Ok c2 ->
  lprod c1 <= lprod c2.
Proof.
  intros Hsh Hn1 Hle Hn2.
  assert (Hf1 : fits shape n1) by (unfold fits, two53, two63 in *; lia).
  assert (Hf2 : fits shape n2) by (unfold fits, two53, two63 in *; lia).
  revert rngs. induction plan as [|g plan IH]; intros rngs Hw.
  - unfold run. simpl. apply (solver_mono rngs n1 n2); auto.
    + eapply working_simple; eassumption.
    + eapply working_fits; eassumption.
  - rewrite !run_cons.
    destruct (_ranges2product (trial rngs (axes_of g)) n1) as [ch1|] eqn:E1;
      [|discriminate].
    destruct (_ranges2product (trial rngs (axes_of g)) n2) as [ch2|] eqn:E2;
      [|discriminate].
    simpl. intros H1 H2.
    pose proof (trial_working _ _ (axes_of g) Hw) as Hw'.
    pose proof (working_simple _ _ Hw') as Hs'.
    pose proof (working_wf _ _ Hw') as Hwf'.
    pose proof (working_fits _ _ _ Hf1 Hw') as Hb'.
    pose proof (solver_within _ n1 Hwf' _ E1) as Hin1.
    pose proof (solver_within _ n2 Hwf' _ E2) as Hin2.
    pose proof (solver_mono _ n1 n2 _ _ Hs' Hb' Hn1 Hle Hn2 E1 E2) as Hm.
    destruct (list_eq_dec Z.eq_dec ch1 ch2) as [<- | Hne].
    + apply (IH (pin rngs (axes_of g) ch1)); auto. now apply pin_working.
    + assert (Hns : ch1 <> stops (trial rngs (axes_of g))).
      { intros Es. apply Hne. symmetry. rewrite Es.
        apply within_top; [assumption | assumption |]. rewrite <- Es. exact Hm. }
      pose proof (solver_half _ n1 _ Hs' Hb' ltac:(lia) E1 Hns) as Hhalf.
      pose proof (pin_working _ _ _ _ Hw Hin1) as Hw1.
      pose proof (pin_working _ _ _ _ Hw Hin2) as Hw2.
      assert (Ec1 : c1 = ch1).
      { rewrite <- (pin_starts rngs (axes_of g) ch1 Hin1).
        apply (run_stuck shape n1 plan); auto.
        now rewrite pin_starts. }
      pose proof (run_above_starts shape n2 plan _ _ Hw2 H2) as Hab.
      rewrite pin_starts in Hab by assumption. subst c1. lia.
Qed.

(** ** One more step on one coordinate *)

Lemma unit_row_length (n i : nat) : length (unit_row n i) = n.
Proof. unfold unit_row. now rewrite length_map, length_seq. Qed.

Lemma nth_unit_row (n i j : nat) :
  (j < n)%nat -> nth j (unit_row n i) 0 = if Nat.eqb j i then 1 else 0.
Proof.
  intros Hj. unfold unit_row.
  rewrite (nth_indep _ 0 ((fun j => if Nat.eqb j i then 1 else 0) O))
    by (now rewrite length_map, length_seq).
  rewrite (map_nth (fun j => if Nat.eqb j i then 1 else 0)).
  now rewrite seq_nth.
Qed.

Lemma raise_at_in (n i : nat) (z : list Z) :
  In z (zerone n) -> In (raise_at i z) (zerone n).
Proof.
  intros Hz. apply zerone_in in Hz as [Hl Hb]. apply zerone_in.
  unfold raise_at. split; [now rewrite enum_map_length|].
  apply Forall_nth. intros j d Hj. rewrite enum_map_length in Hj.
  rewrite (nth_indep _ d 0) by (now rewrite enum_map_length).
  rewrite (enum_map_nth _ _ _ 0) by assumption.
  destruct (Nat.eqb j i); [now right | now apply bits_nth].
Qed.

Lemma nth_raise_at (i j : nat) (z : list Z) :
  (j < length z)%nat ->
  nth j (raise_at i z) 0 = if Nat.eqb j i then 1 else nth j z 0.
Proof.
  intros Hj. unfold raise_at. now rewrite (enum_map_nth _ _ _ 0).
Qed.

Lemma clip_row_length (rngs : list range) (a : list Z) :
  length a = length rngs -> length (clip_row rngs a) = length rngs.
Proof.
  revert a. induction rngs as [|r rngs IH]; intros [|x a]; simpl;
    try discriminate; auto.
Qed.

(** Raising by one a coordinate that the refinement left at the value of the
    sweep gives another row of the refinement. *)
Lemma bump_is_candidate (rngs : list range) (a z : list Z) (i : nat) :
  Forall wf rngs -> within rngs a -> In z (zerone (length rngs)) ->
  (i < length rngs)%nat ->
  nth i (clip_row rngs (add_row a z)) 0 = nth i a 0 ->
  clip_row rngs
    (add_row (clip_row rngs (add_row a z)) (unit_row (length rngs) i))
  = clip_row rngs (add_row a (raise_at i z)).
Proof.
  intros Hwf Ha Hz Hi Hsame.
  pose proof (within_length _ _ Ha) as Hla.
  pose proof (raise_at_in _ i _ Hz) as Hz'.
  pose proof Hz as Hz0. apply zerone_in in Hz0 as [Hlz Hbz].
  pose proof Hz' as Hz1. apply zerone_in in Hz1 as [Hlz' _].
  assert (Hl1 : length (add_row a z) = length rngs)
    by (rewrite add_row_length; congruence).
  assert (Hl2 : length (add_row a (raise_at i z)) = length rngs)
    by (rewrite add_row_length; congruence).
  pose proof (clip_row_length rngs _ Hl1) as Hlt.
  assert (Hl3 : length (add_row (clip_row rngs (add_row a z))
                          (unit_row (length rngs) i)) = length rngs)
    by (rewrite add_row_length; rewrite ?unit_row_length; congruence).
  pose proof (clip_row_within rngs _ Hwf Hl1) as Hin.
  apply (nth_ext _ _ 0 0); [rewrite !clip_row_length; auto|].
  intros j Hj. rewrite clip_row_length in Hj by assumption.
  rewrite !nth_clip_row by assumption.
  rewrite !nth_add_row by (rewrite ?unit_row_length; congruence).
  rewrite nth_unit_row, nth_raise_at by congruence.
  destruct (Nat.eqb_spec j i) as [-> | Hne].
  - now rewrite Hsame.
  - rewrite Z.add_0_r, clip_id.
    + now rewrite nth_clip_row, nth_add_row by congruence.
    + pose proof (Forall2_nth_elim _ no_range 0 _ _ j Hin Hj) as Hb.
      exact Hb.
Qed.

(** * The claims *)

(** ** C1: the budget *)

(** C1, failing input: the budget property fails where the products leave
    [int64].  For a five-dimensional shape of extents 7457 and a budget of
    2^62 elements the product of the last row of the grid, 7457^5, wraps
    around to a value just under the budget, and the whole shape is
    returned, which has more elements than the budget.  The docstring of
    [shape2chunk] promises [chunk[0] * chunk[1] * ... chunk[N] <= numel]. *)
Lemma budget_property_overflow :
  Forall (fun s => 1 <= s) [7457; 7457; 7457; 7457; 7457] /\
  0 < 2 ^ 62 /\
  ~ budget_property [7457; 7457; 7457; 7457; 7457] (2 ^ 62) None.
Proof.
  split; [repeat constructor; lia|]. split; [lia|].
  intros H. specialize (H [7457; 7457; 7457; 7457; 7457]).
  assert (E : shape2chunk [7457; 7457; 7457; 7457; 7457] (2 ^ 62) None
              = Ok [7457; 7457; 7457; 7457; 7457])
    by (vm_compute; reflexivity).
  specialize (H E). vm_compute in H. apply H. reflexivity.
Qed.

(** X2: the budget property where the arithmetic is exact: for every shape
    with all extents at least 1 whose number of elements is below 2^63,
    every budget [0 < numel < 2^63] and every preference plan, the product
    of the coordinates of the tuple that [shape2chunk] returns is at most
    [numel]. *)
Theorem shape2chunk_budget (shape : list Z) (numel : Z)
  (pa : option (list pref)) (chunk : list Z) :
  Forall (fun s => 1 <= s) shape ->
  fits shape numel ->
  shape2chunk shape numel pa = Ok chunk ->
  lprod chunk <= numel.
Proof.
  intros Hs Hf H. apply shape2chunk_ok in H as (_ & rngs & Hg & H).
  pose proof (pin_groups_working _ _ _ _ _ (free_working _ Hs) Hg) as Hw.
  apply (solver_admissible rngs); auto.
  - eapply working_wf; eassumption.
  - eapply working_fits; eassumption.
  - apply Hf.
Qed.

Lemma shape2chunk_budget_witness :
  Forall (fun s => 1 <= s) [400; 30; 200; 100] /\
  fits [400; 30; 200; 100] 1024 /\
  shape2chunk [400; 30; 200; 100] 1024 (Some [Axes [0; 1]])
  = Ok [34; 30; 1; 1] /\
  lprod [34; 30; 1; 1] <= 1024.
Proof.
  assert (Hs : Forall (fun s => 1 <= s) [400; 30; 200; 100])
    by (repeat constructor; lia).
  assert (Hf : fits [400; 30; 200; 100] 1024)
    by (unfold fits; vm_compute; intuition congruence).
  assert (E : shape2chunk [400; 30; 200; 100] 1024 (Some [Axes [0; 1]])
              = Ok [34; 30; 1; 1]) by (vm_compute; reflexivity).
  repeat split; try assumption.
  exact (shape2chunk_budget _ _ _ _ Hs Hf E).
Defined.

(** ** C2: the bounds *)

(** C2: for every shape with all extents at least 1, every budget and every
    preference plan, each coordinate of the tuple that [shape2chunk] returns
    is at least 1 and at most the extent of its dimension. *)
Theorem shape2chunk_bounds (shape : list Z) (numel : Z)
  (pa : option (list pref)) (chunk : list Z) :
  Forall (fun s => 1 <= s) shape ->
  shape2chunk shape numel pa = Ok chunk ->
  Forall2 (fun c s => 1 <= c <= s) chunk shape.
Proof.
  intros Hs H. apply shape2chunk_ok in H as (_ & rngs & Hg & H).
  pose proof (pin_groups_working _ _ _ _ _ (free_working _ Hs) Hg) as Hw.
  apply (working_within shape rngs); [assumption|].
  apply (solver_within rngs numel); [|assumption].
  eapply working_wf; eassumption.
Qed.

Lemma shape2chunk_bounds_witness :
  Forall (fun s => 1 <= s) [400; 30; 20; 10] /\
  shape2chunk [400; 30; 20; 10] 1024 (Some [Axes [2; 3]; Axis 1; Axis 0])
  = Ok [1; 5; 20; 10] /\
  Forall2 (fun c s => 1 <= c <= s) [1; 5; 20; 10] [400; 30; 20; 10].
Proof.
  assert (Hs : Forall (fun s => 1 <= s) [400; 30; 20; 10])
    by (repeat constructor; lia).
  assert (E : shape2chunk [400; 30; 20; 10] 1024
                (Some [Axes [2; 3]; Axis 1; Axis 0])
              = Ok [1; 5; 20; 10]) by (vm_compute; reflexivity).
  repeat split; try assumption.
  exact (shape2chunk_bounds _ _ _ _ Hs E).
Defined.

(** ** C10: balance without a plan *)

(** C10: for every call of [shape2chunk] without a preference plan, any two
    coordinates of the returned tuple that are strictly below the extents of
    their dimensions differ by at most 1. *)
Theorem shape2chunk_balanced (shape : list Z) (numel : Z) (chunk : list Z)
  (i j : nat) :
  shape2chunk shape numel None = Ok chunk ->
  (i < length shape)%nat -> (j < length shape)%nat ->
  nth i chunk 0 < nth i shape 0 -> nth j chunk 0 < nth j shape 0 ->
  -1 <= nth i chunk 0 - nth j chunk 0 <= 1.
Proof.
  intros H Hi Hj Hci Hcj.
  apply shape2chunk_ok in H as (_ & rngs & Hg & H).
  simpl in Hg. injection Hg as <-.
  apply solver_nth in H as [k H].
  assert (Hl : length (free_ranges shape) = length shape)
    by apply length_map.
  destruct (H i) as (bi & Hbi & Ei); [lia|].
  destruct (H j) as (bj & Hbj & Ej); [lia|].
  rewrite nth_free in Ei, Ej by assumption. simpl in Ei, Ej.
  unfold clip in *. lia.
Qed.

Lemma shape2chunk_balanced_witness :
  shape2chunk [400; 30; 200; 100] 1024 None = Ok [6; 6; 5; 5] /\
  (0 < length [400; 30; 200; 100])%nat /\
  (3 < length [400; 30; 200; 100])%nat /\
  nth 0 [6; 6; 5; 5] 0 < nth 0 [400; 30; 200; 100] 0 /\
  nth 3 [6; 6; 5; 5] 0 < nth 3 [400; 30; 200; 100] 0 /\
  -1 <= nth 0 [6; 6; 5; 5] 0 - nth 3 [6; 6; 5; 5] 0 <= 1.
Proof.
  assert (E : shape2chunk [400; 30; 200; 100] 1024 None = Ok [6; 6; 5; 5])
    by (vm_compute; reflexivity).
  assert (H0 : (0 < length [400; 30; 200; 100])%nat) by (simpl; lia).
  assert (H3 : (3 < length [400; 30; 200; 100])%nat) by (simpl; lia).
  assert (Hi : nth 0 [6; 6; 5; 5] 0 < nth 0 [400; 30; 200; 100] 0)
    by (simpl; lia).
  assert (Hj : nth 3 [6; 6; 5; 5] 0 < nth 3 [400; 30; 200; 100] 0)
    by (simpl; lia).
  split; [exact E|]. split; [exact H0|]. split; [exact H3|].
  split; [exact Hi|]. split; [exact Hj|].
  exact (shape2chunk_balanced _ _ _ 0%nat 3%nat E H0 H3 Hi Hj).
Defined.

(** ** C5: pins are kept *)

(** C5: when the plan is [p1 ++ g :: p2], the loop has reached [g] with the
    working ranges [rngs], and the solver returns [chunks] for the group [g],
    then for every dimension [i] of [g] the tuple that [shape2chunk] finally
    returns has at [i] the value [chunks] has there: neither the groups of
    [p2] nor the last solve change it. *)
Theorem pin_respected (shape : list Z) (numel : Z) (p1 p2 : list pref)
  (g : pref) (rngs : list range) (chunks final : list Z) (i : nat) :
  pin_groups (free_ranges shape) numel p1 = Ok rngs ->
  _ranges2product (trial rngs (axes_of g)) numel = Ok chunks ->
  shape2chunk shape numel (Some (p1 ++ g :: p2)) = Ok final ->
  (i < length shape)%nat ->
  axis_in i (axes_of g) = true ->
  nth i final 0 = nth i chunks 0.
Proof.
  intros H1 Hg H Hi Hin.
  apply shape2chunk_ok in H as (_ & rf & Hp & H).
  simpl in Hp. rewrite pin_groups_app, H1 in Hp. simpl in Hp.
  rewrite Hg in Hp. simpl in Hp.
  assert (Hl : length rngs = length shape).
  { rewrite (pin_groups_length _ _ _ _ H1). apply length_map. }
  assert (Hr : nth i rf no_range = mkrange (nth i chunks 0) (nth i chunks 0)).
  { apply (pinned_stays _ _ _ _ _ _ Hp); [rewrite pin_length; lia|].
    rewrite pin_nth, Hin by lia. reflexivity. }
  apply (solver_pinned _ _ _ i _ H); [|exact Hr].
  rewrite (pin_groups_length _ _ _ _ Hp), pin_length. lia.
Qed.

Lemma pin_respected_witness :
  pin_groups (free_ranges [400; 30; 20; 10]) 1024 [Axes [2; 3]]
  = Ok [mkrange 1 400; mkrange 1 30; mkrange 20 20; mkrange 10 10] /\
  _ranges2product
    (trial [mkrange 1 400; mkrange 1 30; mkrange 20 20; mkrange 10 10]
       (axes_of (Axis 1))) 1024
  = Ok [1; 5; 20; 10] /\
  shape2chunk [400; 30; 20; 10] 1024
    (Some ([Axes [2; 3]] ++ Axis 1 :: [Axis 0]))
  = Ok [1; 5; 20; 10] /\
  (1 < length [400; 30; 20; 10])%nat /\
  axis_in 1 (axes_of (Axis 1)) = true /\
  nth 1 [1; 5; 20; 10] 0 = nth 1 [1; 5; 20; 10] 0.
Proof.
  assert (H1 : pin_groups (free_ranges [400; 30; 20; 10]) 1024 [Axes [2; 3]]
               = Ok [mkrange 1 400; mkrange 1 30; mkrange 20 20; mkrange 10 10])
    by (vm_compute; reflexivity).
  assert (Hg : _ranges2product
                 (trial [mkrange 1 400; mkrange 1 30; mkrange 20 20;
                         mkrange 10 10] (axes_of (Axis 1))) 1024
               = Ok [1; 5; 20; 10]) by (vm_compute; reflexivity).
  assert (H : shape2chunk [400; 30; 20; 10] 1024
                (Some ([Axes [2; 3]] ++ Axis 1 :: [Axis 0]))
              = Ok [1; 5; 20; 10]) by (vm_compute; reflexivity).
  assert (Hi : (1 < length [400; 30; 20; 10])%nat) by (simpl; lia).
  assert (Hin : axis_in 1 (axes_of (Axis 1)) = true) by reflexivity.
  split; [exact H1|]. split; [exact Hg|]. split; [exact H|].
  split; [exact Hi|]. split; [exact Hin|].
  exact (pin_respected _ _ _ _ _ _ _ _ 1%nat H1 Hg H Hi Hin).
Defined.

(** ** C4: what a group is solved against *)

(** C4, counterexample: with [pref_axes = [0, 1]] on the shape of the
    docstring, axis 0 has been pinned to 400 when the group of axis 1 is
    solved, and it is handed to the solver as [range(400, 400)]. *)
Lemma pinned_to_one_second_group :
  ~ pinned_to_one [400; 30; 200; 100] 1024 [Axis 0] (Axis 1).
Proof.
  intros H.
  specialize (H [mkrange 400 400; mkrange 1 30; mkrange 1 200; mkrange 1 100]
                O).
  assert (E : pin_groups (free_ranges [400; 30; 200; 100]) 1024 [Axis 0]
              = Ok [mkrange 400 400; mkrange 1 30; mkrange 1 200;
                    mkrange 1 100]) by (vm_compute; reflexivity).
  specialize (H E). simpl in H. specialize (H ltac:(lia) eq_refl).
  discriminate H.
Qed.

(** C4, amended: in the ranges handed to the solver for a group, every
    dimension outside the group is pinned to the lower end of its working
    range, and has that value in every row the solver evaluates.  The
    lower end is 1 for a dimension that no earlier group mentions, so the
    first group is solved against the whole budget; for a dimension of an
    earlier group it is the value that dimension was pinned to, so a later
    group is solved against what the earlier pins leave of the budget. *)
Theorem trial_outside_group (shape : list Z) (numel : Z) (p1 : list pref)
  (g : pref) (rngs : list range) (i : nat) :
  pin_groups (free_ranges shape) numel p1 = Ok rngs ->
  (i < length shape)%nat ->
  axis_in i (axes_of g) = false ->
  let v := start (nth i rngs no_range) in
  let rngs2 := trial rngs (axes_of g) in
  nth i rngs2 no_range = mkrange v v /\
  (forall k, nth i (row rngs2 k) 0 = v) /\
  (forall k z, In z (zerone (length rngs2)) ->
               nth i (clip_row rngs2 (add_row (row rngs2 k) z)) 0 = v) /\
  (mentioned i p1 = false -> v = 1) /\
  (mentioned i p1 = true -> nth i rngs no_range = mkrange v v).
Proof.
  intros Hp Hi Hout v rngs2.
  assert (Hl : length rngs = length shape).
  { rewrite (pin_groups_length _ _ _ _ Hp). apply length_map. }
  assert (Hl2 : length rngs2 = length shape)
    by (unfold rngs2; now rewrite trial_length).
  assert (Hr : nth i rngs2 no_range = mkrange v v).
  { unfold rngs2. rewrite trial_nth, Hout by lia. reflexivity. }
  split; [exact Hr|]. split; [|split; [|split]].
  - intros k. rewrite nth_row, Hr by lia. simpl. unfold clip. lia.
  - intros k z Hz.
    destruct (nth_candidate rngs2 k z i) as (b & _ & ->); [lia | assumption|].
    rewrite Hr. simpl. unfold clip. lia.
  - intros Hm. unfold v.
    rewrite (pin_groups_untouched _ _ _ _ i Hp), nth_free; auto.
    now rewrite free_length.
  - intros Hm.
    destruct (pin_groups_pinned _ _ _ _ i Hp) as [w Hw]; auto.
    + now rewrite free_length.
    + unfold v. rewrite Hw. reflexivity.
Qed.

Lemma trial_outside_group_witness :
  pin_groups (free_ranges [400; 30; 200; 100]) 1024 [Axis 0]
  = Ok [mkrange 400 400; mkrange 1 30; mkrange 1 200; mkrange 1 100] /\
  (0 < length [400; 30; 200; 100])%nat /\
  axis_in 0 (axes_of (Axis 1)) = false /\
  nth 0 (trial [mkrange 400 400; mkrange 1 30; mkrange 1 200; mkrange 1 100]
           (axes_of (Axis 1))) no_range
  = mkrange 400 400.
Proof.
  assert (E : pin_groups (free_ranges [400; 30; 200; 100]) 1024 [Axis 0]
              = Ok [mkrange 400 400; mkrange 1 30; mkrange 1 200;
                    mkrange 1 100]) by (vm_compute; reflexivity).
  assert (Hi : (0 < length [400; 30; 200; 100])%nat) by (simpl; lia).
  assert (Hout : axis_in 0 (axes_of (Axis 1)) = false) by reflexivity.
  split; [exact E|]. split; [exact Hi|]. split; [exact Hout|].
  exact (proj1 (trial_outside_group _ _ _ (Axis 1) _ O E Hi Hout)).
Defined.

(** ** C7: budgets below one *)

(** C7, counterexample: the budget check only tests for zero; a negative
    budget passes it and is stopped by the solver's own check. *)
Lemma invalid_budget_negative :
  Forall (fun s => 1 <= s) [5] /\ -1 <= 0 /\
  ~ invalid_budget_rejected [5] (-1) None.
Proof.
  split; [repeat constructor; lia|]. split; [lia|].
  unfold invalid_budget_rejected. vm_compute. discriminate.
Qed.

(** C7, amended: for every shape with all extents at least 1 and every plan,
    a call with a budget of zero fails with the error of the budget check,
    and a call with a negative budget fails too and returns no chunk shape,
    but with the error of the solver for a budget below the smallest product
    (for a shape without dimensions, with the error of [max] on an empty
    list). *)
Theorem nonpositive_budget_raises (shape : list Z) (numel : Z)
  (pa : option (list pref)) :
  Forall (fun s => 1 <= s) shape ->
  numel <= 0 ->
  shape2chunk shape numel pa
  = Raise (if numel =? 0 then ZeroNumel
           else match shape with [] => EmptyMax | _ => SmallerProduct end).
Proof.
  intros Hs Hn. unfold shape2chunk. rewrite no_zero_axis by assumption.
  destruct (Z.eqb_spec numel 0) as [_|Hne]; [reflexivity|].
  assert (Hneg : numel < 0) by lia.
  destruct (plan_of pa) as [|g rest]; simpl.
  - rewrite solver_negative by auto using np_prod_free.
    now destruct shape.
  - rewrite solver_negative
      by (try rewrite trial_starts; auto using np_prod_free).
    now destruct shape.
Qed.

Lemma nonpositive_budget_raises_witness :
  Forall (fun s => 1 <= s) [400; 30] /\ -5 <= 0 /\
  shape2chunk [400; 30] (-5) (Some [Axis 1]) = Raise SmallerProduct.
Proof.
  assert (Hs : Forall (fun s => 1 <= s) [400; 30]) by (repeat constructor; lia).
  assert (Hn : -5 <= 0) by lia.
  split; [exact Hs|]. split; [exact Hn|].
  exact (nonpositive_budget_raises [400; 30] (-5) (Some [Axis 1]) Hs Hn).
Defined.

(** ** C9: a budget for the whole array *)

(** C9, failing input: the whole array is not returned where the distances
    to the budget are not exact as [float64].  For the shape [(5,)] and a
    budget of 2^60 the distances of the rows 1, ..., 5 all round to
    2^60, the first of them is taken, and so is the first of the two refined
    rows: the chunk is [(1,)] for the shape [(5,)].  The docstring of
    [_ranges2product] promises the product closest to [prod]. *)
Lemma whole_array_rounding :
  Forall (fun s => 1 <= s) [5] /\ lprod [5] <= 2 ^ 60 /\
  shape2chunk [5] (2 ^ 60) None = Ok [1] /\
  ~ whole_array [5] (2 ^ 60).
Proof.
  split; [repeat constructor; lia|]. split; [vm_compute; discriminate|].
  split; [vm_compute; reflexivity|].
  unfold whole_array. vm_compute. discriminate.
Qed.

(** The whole array where the arithmetic is exact: for every shape with at
    least one dimension and all extents at least 1, and every budget [numel]
    of at least the number of elements and at most 2^53, [shape2chunk]
    without a plan returns the shape itself. *)
Theorem shape2chunk_whole_array (shape : list Z) (numel : Z) :
  Forall (fun s => 1 <= s) shape ->
  shape <> [] ->
  lprod shape <= numel ->
  numel <= two53 ->
  shape2chunk shape numel None = Ok shape.
Proof.
  intros Hs Hne Hle Hp.
  pose proof (lprod_pos _ Hs) as Hpos.
  unfold shape2chunk. rewrite no_zero_axis by assumption.
  destruct (Z.eqb_spec numel 0) as [E|_]; [lia|].
  simpl. rewrite <- (free_stops shape) at 2.
  apply solver_saturates.
  - eapply working_wf, free_working; assumption.
  - destruct shape; [congruence | discriminate].
  - now rewrite free_stops.
  - lia.
Qed.

Lemma shape2chunk_whole_array_witness :
  Forall (fun s => 1 <= s) [4; 3; 2] /\ [4; 3; 2] <> [] /\
  lprod [4; 3; 2] <= 24 /\ 24 <= two53 /\
  shape2chunk [4; 3; 2] 24 None = Ok [4; 3; 2].
Proof.
  assert (Hs : Forall (fun s => 1 <= s) [4; 3; 2]) by (repeat constructor; lia).
  assert (Hne : [4; 3; 2] <> []) by discriminate.
  assert (Hle : lprod [4; 3; 2] <= 24) by (simpl; lia).
  assert (Hp : 24 <= two53) by (unfold two53; lia).
  split; [exact Hs|]. split; [exact Hne|]. split; [exact Hle|].
  split; [exact Hp|].
  exact (shape2chunk_whole_array [4; 3; 2] 24 Hs Hne Hle Hp).
Defined.

(** ** C8: a dimension in two groups *)

(** C8, counterexample: the plan [[[0], [0]]] names dimension 0 twice and the
    call returns a chunk shape. *)
Lemma overlap_not_rejected :
  overlapping [Axes [0]; Axes [0]] /\
  shape2chunk [4; 4] 4 (Some [Axes [0]; Axes [0]]) = Ok [4; 1] /\
  ~ overlap_rejected [4; 4] 4 [Axes [0]; Axes [0]].
Proof.
  split.
  { exists [], (Axes [0]), [], (Axes [0]), [], 0. simpl. auto. }
  split; [vm_compute; reflexivity|].
  intros [e He]. vm_compute in He. discriminate He.
Qed.

(** C8, amended: plans are not checked for overlap.  Inside the exact range,
    a group every dimension of which occurs in an earlier group is solved
    again, finds those dimensions pinned, and changes nothing: the call
    gives what it gives without that group. *)
Theorem repeated_group_ignored (shape : list Z) (numel : Z)
  (p1 p2 : list pref) (g : pref) :
  Forall (fun s => 1 <= s) shape ->
  fits shape numel ->
  (forall i, (i < length shape)%nat -> axis_in i (axes_of g) = true ->
             mentioned i p1 = true) ->
  shape2chunk shape numel (Some (p1 ++ g :: p2))
  = shape2chunk shape numel (Some (p1 ++ p2)).
Proof.
  intros Hs Hf Hcov.
  assert (Hn : numel <> 0) by (destruct Hf; lia).
  rewrite !shape2chunk_run by assumption. simpl plan_of.
  destruct shape as [|s shape']; [now rewrite !run_empty|].
  set (shape := s :: shape') in *.
  rewrite !run_app.
  destruct (pin_groups (free_ranges shape) numel p1) as [r1|e] eqn:E1;
    [|reflexivity].
  simpl. unfold run.
  pose proof (pin_groups_working _ _ _ _ _ (free_working _ Hs) E1) as Hw.
  pose proof (pin_groups_length _ _ _ _ E1) as Hl.
  rewrite free_length in Hl.
  rewrite (group_noop shape r1 numel g p2); auto.
  - intros Hnil. rewrite Hnil in Hl. discriminate Hl.
  - apply (pin_groups_budget shape numel p1 (free_ranges shape)); auto.
    + now apply free_working.
    + rewrite free_starts. destruct Hf; lia.
  - intros i Hi Hin. apply (pin_groups_pinned _ _ _ _ i E1).
    + rewrite free_length. lia.
    + apply Hcov; [lia | assumption].
Qed.

Lemma repeated_group_ignored_witness :
  Forall (fun s => 1 <= s) [400; 30; 20; 10] /\
  fits [400; 30; 20; 10] 1024 /\
  shape2chunk [400; 30; 20; 10] 1024
    (Some ([Axes [2; 3]; Axis 1] ++ Axes [3; 1] :: [Axis 0]))
  = shape2chunk [400; 30; 20; 10] 1024
      (Some ([Axes [2; 3]; Axis 1] ++ [Axis 0])).
Proof.
  assert (Hs : Forall (fun s => 1 <= s) [400; 30; 20; 10])
    by (repeat constructor; lia).
  assert (Hf : fits [400; 30; 20; 10] 1024)
    by (unfold fits; vm_compute; intuition congruence).
  split; [exact Hs|]. split; [exact Hf|].
  apply (repeated_group_ignored _ _ [Axes [2; 3]; Axis 1] [Axis 0]
           (Axes [3; 1]) Hs Hf).
  intros i Hi Hin.
  destruct i as [|[|[|[|i]]]]; try reflexivity; try discriminate Hin.
  simpl in Hi. lia.
Defined.

(** ** C3: the refinement *)

(** C3, counterexample: for the shape (10, 10) and a budget of 3 the sweep
    stops at (1, 1), the refinement returns (2, 1), and (3, 1) has a larger
    product within the budget. *)
Lemma single_step_not_maximal :
  shape2chunk [10; 10] 3 None = Ok [2; 1] /\
  ~ single_step_maximal [10; 10] 3 [2; 1].
Proof.
  split; [vm_compute; reflexivity|].
  intros H. apply (H O); [simpl; lia|].
  vm_compute. split; [discriminate | reflexivity].
Qed.

(** C3, amended: inside the exact range and for budgets of at most 2^53, the
    returned tuple is the best the refinement step can reach.  With [rngs]
    the working ranges of the last call of the solver and [a] the tuple its
    sweep found: no way of adding 0 or 1 to each coordinate of [a], clamped
    to [rngs], gives a product within the budget that is larger than the
    product of the returned tuple; in particular, for no dimension [i] whose
    returned coordinate is still the one of [a], adding 1 to coordinate [i]
    of the returned tuple, clamped to [rngs], gives such a product.  ([rngs]
    is [1, shape[i]] for the dimensions no group mentions.  A coordinate that
    the refinement has already raised is not covered.) *)
Theorem refinement_maximal (shape : list Z) (numel : Z)
  (pa : option (list pref)) (chunk : list Z) :
  Forall (fun s => 1 <= s) shape ->
  fits shape numel ->
  numel <= two53 ->
  shape2chunk shape numel pa = Ok chunk ->
  exists rngs a,
    pin_groups (free_ranges shape) numel (plan_of pa) = Ok rngs /\
    sweep rngs numel = Ok a /\
    (forall z, In z (zerone (length shape)) ->
       lprod (clip_row rngs (add_row a z)) <= numel ->
       lprod (clip_row rngs (add_row a z)) <= lprod chunk) /\
    (forall i, (i < length shape)%nat -> nth i chunk 0 = nth i a 0 ->
       let t := clip_row rngs (add_row chunk (unit_row (length shape) i)) in
       ~ (lprod t <= numel /\ lprod chunk < lprod t)).
Proof.
  intros Hs Hf Hp H. apply shape2chunk_ok in H as (_ & rngs & Hg & H).
  pose proof (pin_groups_working _ _ _ _ _ (free_working _ Hs) Hg) as Hw.
  pose proof (working_wf _ _ Hw) as Hwf.
  pose proof (working_fits _ _ _ Hf Hw) as Hb.
  pose proof (working_length _ _ Hw) as Hl.
  destruct (ranges2product_ok _ _ _ H) as (a & z0 & Ha & Hz0 & Et & _).
  assert (Hbest : forall z, In z (zerone (length shape)) ->
            lprod (clip_row rngs (add_row a z)) <= numel ->
            lprod (clip_row rngs (add_row a z)) <= lprod chunk).
  { intros z Hz. rewrite <- Hl in Hz.
    apply (solver_best rngs numel); auto. apply Hf. }
  exists rngs, a. split; [assumption|]. split; [assumption|].
  split; [exact Hbest|].
  intros i Hi Hsame t [Hadm Hlarger]. unfold t in *. clear t.
  rewrite <- Hl in Hi, Hadm, Hlarger.
  assert (Ebump : clip_row rngs (add_row chunk (unit_row (length rngs) i))
                  = clip_row rngs (add_row a (raise_at i z0))).
  { rewrite Et. apply bump_is_candidate; auto.
    - now apply (sweep_within rngs numel).
    - now rewrite <- Et. }
  rewrite Ebump in Hadm, Hlarger.
  pose proof (Hbest (raise_at i z0)) as Hr. rewrite <- Hl in Hr.
  specialize (Hr (raise_at_in _ i _ Hz0) Hadm). lia.
Qed.

Lemma refinement_maximal_witness :
  Forall (fun s => 1 <= s) [10; 10] /\ fits [10; 10] 3 /\ 3 <= two53 /\
  shape2chunk [10; 10] 3 None = Ok [2; 1] /\
  exists rngs a,
    pin_groups (free_ranges [10; 10]) 3 (plan_of None) = Ok rngs /\
    sweep rngs 3 = Ok a /\
    (forall z, In z (zerone (length [10; 10])) ->
       lprod (clip_row rngs (add_row a z)) <= 3 ->
       lprod (clip_row rngs (add_row a z)) <= lprod [2; 1]) /\
    (forall i, (i < length [10; 10])%nat -> nth i [2; 1] 0 = nth i a 0 ->
       let t := clip_row rngs (add_row [2; 1] (unit_row (length [10; 10]) i)) in
       ~ (lprod t <= 3 /\ lprod [2; 1] < lprod t)).
Proof.
  assert (Hs : Forall (fun s => 1 <= s) [10; 10]) by (repeat constructor; lia).
  assert (Hf : fits [10; 10] 3)
    by (unfold fits; vm_compute; intuition congruence).
  assert (Hp : 3 <= two53) by (unfold two53; lia).
  assert (E : shape2chunk [10; 10] 3 None = Ok [2; 1])
    by (vm_compute; reflexivity).
  split; [exact Hs|]. split; [exact Hf|]. split; [exact Hp|].
  split; [exact E|].
  exact (refinement_maximal [10; 10] 3 None [2; 1] Hs Hf Hp E).
Defined.

(** ** C6: growing budgets *)

(** C6, failing input: a larger budget gives a smaller product where the
    distances to the budget are not exact as [float64].  For the shape
    [(5,)] the budget 5 gives [(5,)], and the budget 2^60, whose distances
    to the rows all round to the same [float64], gives [(1,)]. *)
Lemma monotone_rounding :
  Forall (fun s => 1 <= s) [5] /\ 0 < 5 <= 2 ^ 60 /\
  shape2chunk [5] 5 None = Ok [5] /\
  shape2chunk [5] (2 ^ 60) None = Ok [1] /\
  ~ monotone_at [5] 5 (2 ^ 60) None.
Proof.
  split; [repeat constructor; lia|]. split; [lia|].
  split; [vm_compute; reflexivity|]. split; [vm_compute; reflexivity|].
  intros H. specialize (H [5] [1]).
  assert (E1 : shape2chunk [5] 5 None = Ok [5]) by (vm_compute; reflexivity).
  assert (E2 : shape2chunk [5] (2 ^ 60) None = Ok [1])
    by (vm_compute; reflexivity).
  specialize (H E1 E2). simpl in H. lia.
Qed.

(** X3: growing budgets where the arithmetic is exact: for every shape with
    all extents at least 1 and fewer than 2^63 elements, every preference
    plan and all budgets [0 < n1 <= n2 <= 2^53] for which [shape2chunk]
    returns, the product of the tuple returned for [n2] is at least the
    product of the tuple returned for [n1]. *)
Theorem shape2chunk_monotone (shape : list Z) (n1 n2 : Z)
  (pa : option (list pref)) (c1 c2 : list Z) :
  Forall (fun s => 1 <= s) shape ->
  lprod shape < two63 ->
  0 < n1 -> n1 <= n2 -> n2 <= two53 ->
  shape2chunk shape n1 pa = Ok c1 ->
  shape2chunk shape n2 pa = Ok c2 ->
  lprod c1 <= lprod c2.
Proof.
  intros Hs Hb Hn1 Hle Hn2.
  rewrite !shape2chunk_run by (assumption || lia).
  apply (run_mono shape n1 n2); auto.
  now apply free_working.
Qed.

Lemma shape2chunk_monotone_witness :
  Forall (fun s => 1 <= s) [400; 30; 200; 100] /\
  lprod [400; 30; 200; 100] < two63 /\
  0 < 1024 /\ 1024 <= 2048 /\ 2048 <= two53 /\
  shape2chunk [400; 30; 200; 100] 1024 (Some [Axes [0; 1]])
  = Ok [34; 30; 1; 1] /\
  shape2chunk [400; 30; 200; 100] 2048 (Some [Axes [0; 1]])
  = Ok [68; 30; 1; 1] /\
  lprod [34; 30; 1; 1] <= lprod [68; 30; 1; 1].
Proof.
  assert (Hs : Forall (fun s => 1 <= s) [400; 30; 200; 100])
    by (repeat constructor; lia).
  assert (Hb : lprod [400; 30; 200; 100] < two63) by (vm_compute; reflexivity).
  assert (Hn1 : 0 < 1024) by lia.
  assert (Hle : 1024 <= 2048) by lia.
  assert (Hn2 : 2048 <= two53) by (unfold two53; lia).
  assert (E1 : shape2chunk [400; 30; 200; 100] 1024 (Some [Axes [0; 1]])
               = Ok [34; 30; 1; 1]) by (vm_compute; reflexivity).
  assert (E2 : shape2chunk [400; 30; 200; 100] 2048 (Some [Axes [0; 1]])
               = Ok [68; 30; 1; 1]) by (vm_compute; reflexivity).
  split; [exact Hs|]. split; [exact Hb|]. split; [exact Hn1|].
  split; [exact Hle|]. split; [exact Hn2|]. split; [exact E1|].
  split; [exact E2|].
  exact (shape2chunk_monotone _ _ _ _ _ _ Hs Hb Hn1 Hle Hn2 E1 E2).
Defined.

(** * Further properties *)

(** ** Slices of a length *)

Lemma firstn_seq_le (n a len : nat) :
  (n <= len)%nat -> firstn n (seq a len) = seq a n.
Proof.
  revert a len. induction n as [|n IH]; intros a [|len] Hn; simpl; try lia;
    try reflexivity.
  f_equal. apply IH. lia.
Qed.

Lemma range_upto_length (n : Z) : length (range_upto n) = Z.to_nat n.
Proof. unfold range_upto. now rewrite length_map, length_seq. Qed.

Lemma py_slice_range (n a b : Z) :
  0 <= a -> a <= b -> b <= n -> py_slice (range_upto n) a b = segment a b.
Proof.
  intros Ha Hab Hbn. unfold py_slice. rewrite range_upto_length.
  rewrite Z2Nat.id by lia. unfold py_index.
  destruct (Z.ltb_spec a 0); [lia|]. destruct (Z.ltb_spec b 0); [lia|].
  rewrite !Z.min_l by lia. unfold range_upto, segment.
  rewrite skipn_map, firstn_map, skipn_seq, firstn_seq_le by lia.
  reflexivity.
Qed.

Lemma segment_cons (a b : Z) :
  0 <= a -> a < b -> segment a b = a :: segment (a + 1) b.
Proof.
  intros Ha Hab. unfold segment.
  replace (Z.to_nat (b - a)) with (S (Z.to_nat (b - (a + 1)))) by lia.
  cbn [seq map]. rewrite Z2Nat.id by lia. do 3 f_equal. lia.
Qed.

Lemma segment_nil (a b : Z) : b <= a -> segment a b = [].
Proof.
  intros H. unfold segment. now replace (Z.to_nat (b - a)) with O by lia.
Qed.

Lemma segment_snoc (a b : Z) :
  0 <= a -> a < b -> segment a b = segment a (b - 1) ++ [b - 1].
Proof.
  intros Ha Hab. unfold segment.
  replace (Z.to_nat (b - a)) with (S (Z.to_nat (b - 1 - a))) by lia.
  rewrite seq_S, map_app. cbn [map]. do 2 f_equal. lia.
Qed.

Lemma segment_app (a b c : Z) :
  0 <= a -> a <= b -> b <= c -> segment a b ++ segment b c = segment a c.
Proof.
  intros Ha Hab Hbc. unfold segment. rewrite <- map_app. f_equal.
  replace (Z.to_nat (c - a))
    with (Z.to_nat (b - a) + Z.to_nat (c - b))%nat by lia.
  rewrite seq_app. do 2 f_equal. lia.
Qed.

Lemma block_slice_segment (a b : Z) :
  0 <= a -> a < b -> block_slice (segment a b) = Return (mkslice a b).
Proof.
  intros Ha Hab. unfold block_slice.
  rewrite (segment_cons a b) by assumption.
  rewrite <- (segment_cons a b) by assumption.
  rewrite (segment_snoc a b) at 1 by assumption.
  rewrite last_last. do 2 f_equal. lia.
Qed.

(** The division points of a positive length cut by a positive step. *)
Lemma step_indices (len step : Z) :
  1 <= len -> 1 <= step ->
  py_range step len step
  = Some (map (fun i => step + Z.of_nat i * step)
            (seq 0 (Z.to_nat ((len - 1) / step)))).
Proof.
  intros Hl Hs. unfold py_range, range_len.
  destruct (Z.eqb_spec step 0); [lia|].
  destruct (Z.ltb_spec 0 step); [|lia].
  do 3 f_equal.
  destruct (Z.ltb_spec step len) as [Hlt | Hge].
  - replace (len - 1) with ((len - step - 1) + 1 * step) by lia.
    rewrite Z.div_add by lia. reflexivity.
  - rewrite Z.div_small by lia. reflexivity.
Qed.

Lemma traverse_cons {A B : Type} (f : A -> outcome B) (x : A) (t : list A)
  (y : B) (ys : list B) :
  f x = Return y -> traverse f t = Return ys ->
  traverse f (x :: t) = Return (y :: ys).
Proof. intros Hx Ht. simpl. now rewrite Hx, Ht. Qed.

(** The sections from the [j]-th division point on. *)
Lemma sections_from (len step : Z) (m j : nat) :
  1 <= step ->
  Z.of_nat (j + m) * step < len -> len <= (Z.of_nat (j + m) + 1) * step ->
  traverse block_slice
    (sections (range_upto len) (Z.of_nat j * step)
       (map (fun i => step + Z.of_nat i * step) (seq j m) ++ [len]))
  = Return (map (nth_slice len step) (seq j (S m))).
Proof.
  intros Hs. revert j. induction m as [|m IH]; intros j Hlo Hhi.
  - simpl. rewrite py_slice_range, block_slice_segment by nia.
    unfold nth_slice. do 3 f_equal. replace (j + 0)%nat with j in * by lia.
    lia.
  - cbn [seq map app sections].
    apply traverse_cons.
    + rewrite py_slice_range, block_slice_segment by nia.
      unfold nth_slice. do 2 f_equal. nia.
    + replace (step + Z.of_nat j * step) with (Z.of_nat (S j) * step) by lia.
      apply IH.
      * replace (S j + m)%nat with (j + S m)%nat by lia. exact Hlo.
      * replace (S j + m)%nat with (j + S m)%nat by lia. exact Hhi.
Qed.

Lemma slices_closed (len step : Z) :
  1 <= len -> 1 <= step ->
  length_to_slices_of_indexes len step
  = Return (map (nth_slice len step)
              (seq 0 (S (Z.to_nat ((len - 1) / step))))).
Proof.
  intros Hl Hs. unfold length_to_slices_of_indexes.
  rewrite step_indices by assumption. unfold array_split.
  rewrite range_upto_length, Z2Nat.id by lia.
  pose proof (Z.div_pos (len - 1) step ltac:(lia) ltac:(lia)) as Hq.
  pose proof (Z.mul_div_le (len - 1) step ltac:(lia)) as H1.
  pose proof (Z.mul_succ_div_gt (len - 1) step ltac:(lia)) as H2.
  apply (sections_from len step (Z.to_nat ((len - 1) / step)) 0 Hs).
  - simpl. rewrite Z2Nat.id by assumption. nia.
  - simpl. rewrite Z2Nat.id by assumption. nia.
Qed.

Lemma slice_count_bounds (len step : Z) (i : nat) :
  1 <= len -> 1 <= step -> (i < S (Z.to_nat ((len - 1) / step)))%nat ->
  Z.of_nat i * step < len.
Proof.
  intros Hl Hs Hi.
  pose proof (Z.div_pos (len - 1) step ltac:(lia) ltac:(lia)) as Hq.
  pose proof (Z.mul_div_le (len - 1) step ltac:(lia)) as H1.
  assert (Z.of_nat i <= (len - 1) / step) by lia. nia.
Qed.

Lemma cover_from (len step : Z) (m j : nat) :
  1 <= step ->
  Z.of_nat (j + m) * step < len -> len <= (Z.of_nat (j + m) + 1) * step ->
  flat_map slice_indexes (map (nth_slice len step) (seq j (S m)))
  = segment (Z.of_nat j * step) len.
Proof.
  intros Hs. revert j. induction m as [|m IH]; intros j Hlo Hhi.
  - replace (j + 0)%nat with j in * by lia. simpl. rewrite app_nil_r.
    unfold slice_indexes, nth_slice. simpl. f_equal. lia.
  - rewrite <- (cons_seq (S m) j). cbn [map flat_map]. rewrite IH.
    + unfold slice_indexes, nth_slice. cbn [slice_start slice_stop].
      rewrite Z.min_l by nia.
      replace (Z.of_nat (S j) * step) with ((Z.of_nat j + 1) * step) by lia.
      apply segment_app; nia.
    + replace (S j + m)%nat with (j + S m)%nat by lia. exact Hlo.
    + replace (S j + m)%nat with (j + S m)%nat by lia. exact Hhi.
Qed.

(** X9: for a length and a step of at least 1,
    [length_to_slices_of_indexes] yields [ceil(length / step)] slices, and
    the [i]-th of them is [slice(i * step, min((i + 1) * step, length))]. *)
Theorem length_to_slices_closed_form (len step : Z) :
  1 <= len -> 1 <= step ->
  exists sl,
    length_to_slices_of_indexes len step = Return sl /\
    Z.of_nat (length sl) = (len + step - 1) / step /\
    forall i, (i < length sl)%nat ->
      nth i sl (mkslice 0 0)
      = mkslice (Z.of_nat i * step) (Z.min ((Z.of_nat i + 1) * step) len).
Proof.
  intros Hl Hs. eexists. split; [now apply slices_closed|].
  rewrite length_map, length_seq.
  pose proof (Z.div_pos (len - 1) step ltac:(lia) ltac:(lia)) as Hq.
  split.
  - replace (len + step - 1) with ((len - 1) + 1 * step) by lia.
    rewrite Z.div_add by lia. lia.
  - intros i Hi.
    rewrite (nth_indep _ _ (nth_slice len step O))
      by (now rewrite length_map, length_seq).
    rewrite (map_nth (nth_slice len step)), seq_nth by assumption.
    reflexivity.
Qed.

Lemma length_to_slices_closed_form_witness :
  1 <= 14 /\ 1 <= 4 /\
  exists sl,
    length_to_slices_of_indexes 14 4 = Return sl /\
    Z.of_nat (length sl) = (14 + 4 - 1) / 4 /\
    forall i, (i < length sl)%nat ->
      nth i sl (mkslice 0 0)
      = mkslice (Z.of_nat i * 4) (Z.min ((Z.of_nat i + 1) * 4) 14).
Proof.
  assert (Hl : 1 <= 14) by lia. assert (Hs : 1 <= 4) by lia.
  split; [exact Hl|]. split; [exact Hs|].
  exact (length_to_slices_closed_form 14 4 Hl Hs).
Defined.

(** X10: for a length and a step of at least 1, the slices that
    [length_to_slices_of_indexes] yields, taken one after the other, select
    the indexes [0, ..., length - 1] in order, each once; no slice is empty
    and none selects more than [step] indexes. *)
Theorem length_to_slices_tile (len step : Z) :
  1 <= len -> 1 <= step ->
  exists sl,
    length_to_slices_of_indexes len step = Return sl /\
    flat_map slice_indexes sl = range_upto len /\
    Forall (fun s => 0 <= slice_start s /\ 1 <= slice_width s <= step) sl.
Proof.
  intros Hl Hs. eexists. split; [now apply slices_closed|].
  pose proof (Z.div_pos (len - 1) step ltac:(lia) ltac:(lia)) as Hq.
  pose proof (Z.mul_div_le (len - 1) step ltac:(lia)) as H1.
  pose proof (Z.mul_succ_div_gt (len - 1) step ltac:(lia)) as H2.
  split.
  - rewrite (cover_from len step _ 0 Hs).
    + unfold segment, range_upto. simpl. now rewrite Z.sub_0_r.
    + simpl. rewrite Z2Nat.id by assumption. nia.
    + simpl. rewrite Z2Nat.id by assumption. nia.
  - apply Forall_map, Forall_forall. intros i Hi. apply in_seq in Hi.
    pose proof (slice_count_bounds len step i Hl Hs ltac:(lia)).
    unfold slice_width, nth_slice. simpl. lia.
Qed.

Lemma length_to_slices_tile_witness :
  1 <= 14 /\ 1 <= 4 /\
  exists sl,
    length_to_slices_of_indexes 14 4 = Return sl /\
    flat_map slice_indexes sl = range_upto 14 /\
    Forall (fun s => 0 <= slice_start s /\ 1 <= slice_width s <= 4) sl.
Proof.
  assert (Hl : 1 <= 14) by lia. assert (Hs : 1 <= 4) by lia.
  split; [exact Hl|]. split; [exact Hs|].
  exact (length_to_slices_tile 14 4 Hl Hs).
Defined.

(** X11: for a length of at least 1, a step that is negative, or at least
    the length, gives the one slice [slice(0, length)]: a negative step is
    not rejected. *)
Theorem length_to_slices_single (len step : Z) :
  1 <= len -> step < 0 \/ len <= step ->
  length_to_slices_of_indexes len step = Return [mkslice 0 len].
Proof.
  intros Hl Hs. unfold length_to_slices_of_indexes.
  assert (E : py_range step len step = Some []).
  { unfold py_range, range_len. destruct (Z.eqb_spec step 0); [lia|].
    destruct (Z.ltb_spec 0 step), (Z.ltb_spec step len), (Z.ltb_spec len step);
      try lia; reflexivity. }
  rewrite E. unfold array_split. simpl.
  rewrite range_upto_length, Z2Nat.id, py_slice_range by lia.
  now rewrite block_slice_segment by lia.
Qed.

Lemma length_to_slices_single_witness :
  1 <= 14 /\ (-3 < 0 \/ 14 <= -3) /\
  length_to_slices_of_indexes 14 (-3) = Return [mkslice 0 14].
Proof.
  assert (Hl : 1 <= 14) by lia.
  assert (Hs : -3 < 0 \/ 14 <= -3) by (left; lia).
  split; [exact Hl|]. split; [exact Hs|].
  exact (length_to_slices_single 14 (-3) Hl Hs).
Defined.

(** X12: [length_to_slices_of_indexes] yields nothing for a length below 1
    or a step of zero: a zero step is the [ValueError] of [range], and
    otherwise the first section of the empty array has no first element,
    which is an [IndexError]. *)
Theorem length_to_slices_raises (len step : Z) :
  len <= 0 \/ step = 0 ->
  length_to_slices_of_indexes len step
  = Throw (if step =? 0 then StepZero else EmptyBlock).
Proof.
  intros H. unfold length_to_slices_of_indexes, py_range.
  destruct (Z.eqb_spec step 0) as [E|E]; [reflexivity|].
  destruct H as [H|H]; [|contradiction].
  unfold array_split, range_upto.
  replace (Z.to_nat len) with O by lia. simpl.
  destruct (map _ _ ++ [0]) as [|x t] eqn:El.
  - apply app_eq_nil in El as [_ El]. discriminate El.
  - cbn [sections traverse]. unfold py_slice.
    now rewrite skipn_nil, firstn_nil.
Qed.

Lemma length_to_slices_raises_witness :
  (0 <= 0 \/ 3 = 0) /\
  length_to_slices_of_indexes 0 3 = Throw EmptyBlock.
Proof.
  assert (H : 0 <= 0 \/ 3 = 0) by (left; lia).
  split; [exact H|].
  exact (length_to_slices_raises 0 3 H).
Defined.

(** ** Products of dictionaries *)

Lemma dict_set_new {V : Type} (k : String.string) (v : V) (d : dict V) :
  ~ In k (map fst d) -> dict_set k v d = d ++ [(k, v)].
Proof.
  induction d as [|[k' v'] d IH]; simpl; intros Hk; [reflexivity|].
  destruct (String.eqb_spec k k') as [-> | Hne]; [tauto|].
  rewrite IH by tauto. reflexivity.
Qed.

Lemma dict_of_from {V : Type} (l acc : list (String.string * V)) :
  NoDup (map fst (acc ++ l)) ->
  fold_left (fun d kv => dict_set (fst kv) (snd kv) d) l acc = acc ++ l.
Proof.
  revert acc. induction l as [|[k v] l IH]; intros acc Hnd; simpl.
  - now rewrite app_nil_r.
  - rewrite dict_set_new.
    + rewrite IH; rewrite <- app_assoc; [reflexivity | exact Hnd].
    + rewrite map_app in Hnd. simpl in Hnd.
      apply NoDup_remove_2 in Hnd. intros Hin. apply Hnd.
      apply in_or_app. now left.
Qed.

(** Pairs with distinct keys make the dictionary of those pairs. *)
Lemma dict_of_nodup {V : Type} (l : list (String.string * V)) :
  NoDup (map fst l) -> dict_of l = l.
Proof. intros H. unfold dict_of. now rewrite dict_of_from. Qed.

Lemma combine_fst {A B : Type} (l : list A) (l' : list B) :
  length l = length l' -> map fst (combine l l') = l.
Proof.
  revert l'. induction l as [|x l IH]; intros [|y l']; simpl;
    try discriminate; intros Hl; [reflexivity|].
  f_equal. apply IH. lia.
Qed.

Lemma combine_snd {A B : Type} (l : list A) (l' : list B) :
  length l = length l' -> map snd (combine l l') = l'.
Proof.
  revert l'. induction l as [|x l IH]; intros [|y l']; simpl;
    try discriminate; intros Hl; [reflexivity|].
  f_equal. apply IH. lia.
Qed.

Lemma combine_fst_snd {A B : Type} (l : list (A * B)) :
  combine (map fst l) (map snd l) = l.
Proof.
  induction l as [|[x y] l IH]; simpl; [reflexivity | now rewrite IH].
Qed.

Lemma product_in {A : Type} (pools : list (list A)) (t : list A) :
  In t (product pools) <-> Forall2 (fun pool x => In x pool) pools t.
Proof.
  revert t. induction pools as [|pool pools IH]; intros t; simpl.
  - split.
    + intros [<- | []]. constructor.
    + intros H. inversion H. now left.
  - rewrite in_flat_map. split.
    + intros (x & Hx & Ht). apply in_map_iff in Ht as (t' & <- & Ht').
      constructor; [assumption | now apply IH].
    + intros H. inversion H as [|? x ? t' Hx Ht']; subst.
      exists x. split; [assumption|]. apply in_map. now apply IH.
Qed.

Lemma product_length {A : Type} (pools : list (list A)) :
  length (product pools)
  = fold_right (fun pool n => (length pool * n)%nat) 1%nat pools.
Proof.
  induction pools as [|pool pools IH]; simpl; [reflexivity|].
  rewrite <- IH. clear IH.
  induction pool as [|x pool IHp]; simpl; [reflexivity|].
  now rewrite length_app, length_map, IHp.
Qed.

Lemma product_NoDup {A : Type} (pools : list (list A)) :
  Forall (@NoDup A) pools -> NoDup (product pools).
Proof.
  induction 1 as [|pool pools Hp _ IH]; simpl.
  - constructor; [intros [] | constructor].
  - induction Hp as [|x pool Hx _ IHp]; simpl; [constructor|].
    apply NoDup_app.
    + apply NoDup_map_NoDup_ForallPairs; [|assumption].
      intros a b _ _ E. now injection E.
    + assumption.
    + intros t Ht Ht'. apply in_map_iff in Ht as (t1 & <- & _).
      apply in_flat_map in Ht' as (y & Hy & Ht').
      apply in_map_iff in Ht' as (t2 & E & _). injection E as -> _.
      contradiction.
Qed.

Lemma product_lengths {A : Type} (pools : list (list A)) (t : list A) :
  In t (product pools) -> length t = length pools.
Proof.
  intros H. apply product_in in H. symmetry. exact (Forall2_length H).
Qed.

(** With distinct keys an entry of [dict_prod] is the keys zipped with one
    choice of values. *)
Lemma dict_prod_entry {V : Type} (d : dict (list V)) (e : dict V) :
  NoDup (map fst d) ->
  In e (dict_prod d) <->
  exists values, In values (product (map snd d)) /\
                 e = combine (map fst d) values.
Proof.
  intros Hnd. unfold dict_prod. rewrite in_map_iff.
  assert (Hd : forall values, In values (product (map snd d)) ->
                 dict_of (combine (map fst d) values)
                 = combine (map fst d) values).
  { intros values Hv. apply dict_of_nodup.
    rewrite combine_fst; [assumption|].
    rewrite (product_lengths _ _ Hv), !length_map. reflexivity. }
  split.
  - intros (values & He & Hv). exists values. split; [assumption|].
    now rewrite <- He, Hd.
  - intros (values & Hv & He). exists values. split; [|assumption].
    now rewrite He, Hd.
Qed.

(** X13: for a dictionary of lists, the dictionaries of [dict_prod] are
    exactly those with the same keys in the same order whose value under
    each key is an element of the list under that key. *)
Theorem dict_prod_spec {V : Type} (d : dict (list V)) (e : dict V) :
  NoDup (map fst d) ->
  In e (dict_prod d) <->
  map fst e = map fst d /\
  Forall2 (fun pool v => In v pool) (map snd d) (map snd e).
Proof.
  intros Hnd. rewrite dict_prod_entry by assumption. split.
  - intros (values & Hv & ->).
    pose proof (product_lengths _ _ Hv) as Hl. rewrite length_map in Hl.
    rewrite combine_fst, combine_snd by (rewrite length_map; lia).
    split; [reflexivity | now apply product_in].
  - intros [Hk Hv]. exists (map snd e). split; [now apply product_in|].
    rewrite <- Hk. symmetry. apply combine_fst_snd.
Qed.

Lemma dict_prod_spec_witness :
  NoDup (map fst [("a"%string, [1; 2]); ("b"%string, [3; 4])]) /\
  (In [("a"%string, 2); ("b"%string, 3)]
     (dict_prod [("a"%string, [1; 2]); ("b"%string, [3; 4])]) <->
   map fst [("a"%string, 2); ("b"%string, 3)]
   = map fst [("a"%string, [1; 2]); ("b"%string, [3; 4])] /\
   Forall2 (fun pool v => In v pool)
     (map snd [("a"%string, [1; 2]); ("b"%string, [3; 4])])
     (map snd [("a"%string, 2); ("b"%string, 3)])).
Proof.
  assert (Hnd : NoDup (map fst [("a"%string, [1; 2]); ("b"%string, [3; 4])])).
  { simpl. repeat constructor; simpl; intuition discriminate. }
  split; [exact Hnd|].
  exact (dict_prod_spec [("a"%string, [1; 2]); ("b"%string, [3; 4])]
           [("a"%string, 2); ("b"%string, 3)] Hnd).
Defined.

(** X14: [dict_prod] returns as many dictionaries as the product of the
    lengths of the lists: one, the empty dictionary, for an empty
    dictionary, and none as soon as one list is empty. *)
Theorem dict_prod_count {V : Type} (d : dict (list V)) :
  length (dict_prod d)
  = fold_right (fun kv n => (length (snd kv) * n)%nat) 1%nat d.
Proof.
  unfold dict_prod. rewrite length_map, product_length.
  induction d as [|kv d IH]; simpl; [reflexivity | now rewrite IH].
Qed.

(** X15: when no list of the dictionary repeats a value, [dict_prod] returns
    no dictionary twice. *)
Theorem dict_prod_NoDup {V : Type} (d : dict (list V)) :
  NoDup (map fst d) ->
  Forall (fun kv => NoDup (snd kv)) d ->
  NoDup (dict_prod d).
Proof.
  intros Hnd Hv. unfold dict_prod.
  apply NoDup_map_NoDup_ForallPairs.
  - intros v1 v2 H1 H2 E.
    pose proof (product_lengths _ _ H1) as L1.
    pose proof (product_lengths _ _ H2) as L2.
    rewrite length_map in L1, L2.
    rewrite !dict_of_nodup in E
      by (rewrite combine_fst; [assumption | rewrite length_map; lia]).
    apply (f_equal (map snd)) in E.
    now rewrite !combine_snd in E by (rewrite length_map; lia).
  - apply product_NoDup. now apply Forall_map.
Qed.

Lemma dict_prod_NoDup_witness :
  NoDup (map fst [("a"%string, [1; 2]); ("b"%string, [3; 4])]) /\
  Forall (fun kv => NoDup (snd kv))
    [("a"%string, [1; 2]); ("b"%string, [3; 4])] /\
  NoDup (dict_prod [("a"%string, [1; 2]); ("b"%string, [3; 4])]).
Proof.
  assert (Hnd : NoDup (map fst [("a"%string, [1; 2]); ("b"%string, [3; 4])])).
  { simpl. repeat constructor; simpl; intuition discriminate. }
  assert (Hv : Forall (fun kv => NoDup (snd kv))
                 [("a"%string, [1; 2]); ("b"%string, [3; 4])]).
  { repeat constructor; simpl; intuition discriminate. }
  split; [exact Hnd|]. split; [exact Hv|].
  exact (dict_prod_NoDup _ Hnd Hv).
Defined.

(** ** From a chunk shape to the blocks *)

(** Inside the exact range a call on a shape with a dimension returns a
    chunk shape inside the shape and the budget. *)
Lemma chunk_in_range (shape : list Z) (numel : Z) (pa : option (list pref)) :
  Forall (fun s => 1 <= s) shape -> shape <> [] -> fits shape numel ->
  exists chunk,
    shape2chunk shape numel pa = Ok chunk /\
    Forall2 (fun c s => 1 <= c <= s) chunk shape /\
    lprod chunk <= numel.
Proof.
  intros Hs Hne Hf.
  assert (Hn : numel <> 0) by (destruct Hf; lia).
  rewrite shape2chunk_run by assumption. unfold run.
  pose proof (free_working _ Hs) as Hw.
  assert (Hne' : free_ranges shape <> [])
    by (destruct shape; [congruence | discriminate]).
  assert (Hlo : lprod (starts (free_ranges shape)) <= numel)
    by (rewrite free_starts; destruct Hf; lia).
  destruct (pin_groups_total shape numel (plan_of pa) _ Hf Hw Hne' Hlo)
    as [rngs E].
  rewrite E. simpl.
  pose proof (pin_groups_working _ _ _ _ _ Hw E) as Hw'.
  pose proof (working_wf _ _ Hw') as Hwf.
  pose proof (working_fits _ _ _ Hf Hw') as Hb.
  destruct (solver_total rngs numel Hwf Hb (proj2 Hf)) as [chunk Hc].
  - intros Hnil. apply working_length in Hw'. rewrite Hnil in Hw'.
    destruct shape; [congruence | discriminate].
  - apply (pin_groups_budget shape numel (plan_of pa) (free_ranges shape));
      assumption.
  - exists chunk. split; [assumption|]. split.
    + apply (working_within shape rngs); [assumption|].
      now apply (solver_within rngs numel).
    + apply (solver_admissible rngs numel Hwf Hb (proj2 Hf)). assumption.
Qed.

Lemma traverse_map {A B : Type} (f : A -> outcome B) (g : A -> B)
  (l : list A) :
  (forall x, In x l -> f x = Return (g x)) ->
  traverse f l = Return (map g l).
Proof.
  induction l as [|x l IH]; intros H; simpl; [reflexivity|].
  rewrite (H x) by now left. rewrite IH by (intros y Hy; apply H; now right).
  reflexivity.
Qed.










(** ** The blocks of [load_by_step] tile the array *)

Lemma nth_slice_holds (len step i : Z) :
  1 <= step -> 0 <= i < len ->
  (Z.to_nat (i / step) < S (Z.to_nat ((len - 1) / step)))%nat /\
  slice_start (nth_slice len step (Z.to_nat (i / step))) <= i
  < slice_stop (nth_slice len step (Z.to_nat (i / step))).
Proof.
  intros Hs Hi.
  pose proof (Z.div_pos i step ltac:(lia) ltac:(lia)) as Hq.
  pose proof (Z.div_le_mono i (len - 1) step ltac:(lia) ltac:(lia)) as Hle.
  pose proof (Z.mul_div_le i step ltac:(lia)) as H1.
  pose proof (Z.mul_succ_div_gt i step ltac:(lia)) as H2.
  unfold nth_slice. cbn [slice_start slice_stop].
  rewrite Z2Nat.id by assumption. split; [lia|]. split; [lia|].
  apply Z.min_glb_lt; lia.
Qed.

Lemma nth_slice_index (len step i : Z) (k : nat) :
  1 <= step ->
  slice_start (nth_slice len step k) <= i < slice_stop (nth_slice len step k) ->
  k = Z.to_nat (i / step).
Proof.
  unfold nth_slice. cbn [slice_start slice_stop]. intros Hs Hi.
  assert (E : Z.of_nat k = i / step).
  { apply (Z.div_unique_pos i step (Z.of_nat k) (i - Z.of_nat k * step)); lia. }
  rewrite <- E. now rewrite Nat2Z.id.
Qed.

Lemma dim_slices_NoDup (sc : Z * Z) : 1 <= snd sc -> NoDup (dim_slices sc).
Proof.
  intros Hs. unfold dim_slices. apply NoDup_map_NoDup_ForallPairs.
  - intros a b _ _ E. unfold nth_slice in E. injection E as E _. nia.
  - apply seq_NoDup.
Qed.

(** One slice per dimension holds a given index, and only one. *)
Lemma choose_slices (scs : list (Z * Z)) :
  Forall (fun sc => 1 <= fst sc /\ 1 <= snd sc) scs ->
  forall point,
    Forall2 (fun n i => 0 <= i < n) (map fst scs) point ->
    exists values,
      Forall2 (fun pool v => In v pool) (map dim_slices scs) values /\
      Forall2 (fun v i => slice_start v <= i < slice_stop v) values point /\
      forall values',
        Forall2 (fun pool v => In v pool) (map dim_slices scs) values' ->
        Forall2 (fun v i => slice_start v <= i < slice_stop v) values' point ->
        values' = values.
Proof.
  induction 1 as [|[len step] scs [Hl Hs] _ IH]; intros point Hp;
    cbn [map fst snd] in *.
  - inversion Hp; subst. exists []. split; [constructor|].
    split; [constructor|]. intros values' H _. now inversion H.
  - inversion Hp as [|? i ? point' Hi Hp']; subst.
    destruct (IH _ Hp') as (values & Hin & Hcov & Huniq).
    destruct (nth_slice_holds len step i Hs Hi) as [Hk Hcovk].
    exists (nth_slice len step (Z.to_nat (i / step)) :: values).
    split; [|split].
    + constructor; [|assumption]. unfold dim_slices. cbn [fst snd].
      apply in_map, in_seq. lia.
    + constructor; assumption.
    + intros values' H' Hc'.
      inversion H' as [|? v ? vs Hv Hvs]; subst.
      inversion Hc' as [|? ? ? ? Hcv Hcvs]; subst.
      unfold dim_slices in Hv. cbn [fst snd] in Hv.
      apply in_map_iff in Hv as (k & <- & _).
      rewrite (nth_slice_index len step i k Hs Hcv).
      f_equal. now apply Huniq.
Qed.

Lemma lookup_extents (sizes dims_kws : dict Z) (extents : list Z) :
  Forall2 (fun ds n => dict_get (fst ds) sizes = Some n /\
                       1 <= n /\ 1 <= snd ds) dims_kws extents ->
  exists gens,
    dims_steps_to_dims_slices sizes dims_kws = Return gens /\
    map fst gens = map fst dims_kws /\
    map fst (map snd gens) = extents /\
    Forall (fun sc => 1 <= fst sc /\ 1 <= snd sc) (map snd gens).
Proof.
  unfold dims_steps_to_dims_slices.
  induction 1 as [|ds n dims_kws extents (E & Hn & Hs) _ IH].
  - exists []. repeat split; constructor.
  - destruct IH as (gens & Eg & Hk & He & Hpos).
    exists ((fst ds, (n, snd ds)) :: gens).
    cbn [traverse map fst snd]. rewrite E, Eg, Hk, He.
    repeat split; try reflexivity. constructor; [simpl; lia | assumption].
Qed.

(** X17: the blocks of [load_by_step] tile the array.  When every keyword
    names a dimension of the array, with an extent of at least 1, and gives
    it a step of at least 1, the slices of [load_by_step] are computed
    without an error, no block comes twice, every block has the keywords as
    its keys, and every tuple of indexes (one index inside the extent of each
    named dimension) lies in the slices of exactly one block. *)
Theorem load_by_step_tiles (sizes dims_kws : dict Z) (extents : list Z) :
  NoDup (map fst dims_kws) ->
  Forall2 (fun ds n => dict_get (fst ds) sizes = Some n /\
                       1 <= n /\ 1 <= snd ds) dims_kws extents ->
  exists blocks,
    load_by_step_slices sizes dims_kws = Return blocks /\
    NoDup blocks /\
    (forall b, In b blocks -> map fst b = map fst dims_kws) /\
    forall point,
      Forall2 (fun n i => 0 <= i < n) extents point ->
      exists b,
        In b blocks /\ covers b point /\
        forall b', In b' blocks -> covers b' point -> b' = b.
Proof.
  intros Hnd H.
  destruct (lookup_extents _ _ _ H) as (gens & Eg & Hk & He & Hpos).
  unfold load_by_step_slices. rewrite Eg.
  rewrite (traverse_map _ (fun g => (fst g, dim_slices (snd g)))).
  2:{ intros g Hg. rewrite Forall_forall in Hpos.
      destruct (Hpos (snd g) (in_map snd _ _ Hg)) as [Hl Hs].
      now rewrite slices_closed. }
  set (d := map (fun g => (fst g, dim_slices (snd g))) gens).
  assert (Hkeys : map fst d = map fst dims_kws)
    by (unfold d; rewrite map_map; exact Hk).
  assert (Hpools : map snd d = map dim_slices (map snd gens))
    by (unfold d; now rewrite !map_map).
  assert (Hndd : NoDup (map fst d)) by now rewrite Hkeys.
  assert (Hlen : forall values, In values (product (map snd d)) ->
                   length (map fst d) = length values).
  { intros values Hv. rewrite (product_lengths _ _ Hv), !length_map.
    reflexivity. }
  eexists. split; [reflexivity|]. split; [|split].
  - unfold dict_prod. apply NoDup_map_NoDup_ForallPairs.
    + intros v1 v2 H1 H2 E.
      rewrite !dict_of_nodup in E
        by (rewrite combine_fst; [assumption | now apply Hlen]).
      apply (f_equal (map snd)) in E.
      now rewrite !combine_snd in E by now apply Hlen.
    + apply product_NoDup. rewrite Hpools. apply Forall_map.
      rewrite Forall_forall in *. intros sc Hsc.
      apply dim_slices_NoDup. now apply Hpos.
  - intros b Hb. apply dict_prod_entry in Hb; [|assumption].
    destruct Hb as (values & Hv & ->).
    rewrite combine_fst by now apply Hlen. exact Hkeys.
  - intros point Hp. rewrite <- He in Hp.
    destruct (choose_slices _ Hpos point Hp) as (values & Hin & Hcov & Huniq).
    rewrite <- Hpools in Hin, Huniq.
    assert (Hv : In values (product (map snd d))) by now apply product_in.
    exists (combine (map fst d) values). split; [|split].
    + apply dict_prod_entry; [assumption|]. now exists values.
    + unfold covers. now rewrite combine_snd by now apply Hlen.
    + intros b' Hb' Hc'. apply dict_prod_entry in Hb'; [|assumption].
      destruct Hb' as (values' & Hv' & ->). unfold covers in Hc'.
      rewrite combine_snd in Hc' by now apply Hlen.
      f_equal. apply Huniq; [now apply product_in | assumption].
Qed.

Lemma load_by_step_tiles_witness :
  NoDup (map fst [("time"%string, 4); ("lat"%string, 2)]) /\
  Forall2 (fun ds n =>
             dict_get (fst ds)
               [("time"%string, 14); ("lat"%string, 3); ("lon"%string, 5)]
             = Some n /\ 1 <= n /\ 1 <= snd ds)
    [("time"%string, 4); ("lat"%string, 2)] [14; 3] /\
  exists blocks,
    load_by_step_slices
      [("time"%string, 14); ("lat"%string, 3); ("lon"%string, 5)]
      [("time"%string, 4); ("lat"%string, 2)] = Return blocks /\
    NoDup blocks /\
    (forall b, In b blocks ->
       map fst b = map fst [("time"%string, 4); ("lat"%string, 2)]) /\
    forall point,
      Forall2 (fun n i => 0 <= i < n) [14; 3] point ->
      exists b,
        In b blocks /\ covers b point /\
        forall b', In b' blocks -> covers b' point -> b' = b.
Proof.
  assert (Hnd : NoDup (map fst [("time"%string, 4); ("lat"%string, 2)])).
  { simpl. repeat constructor; simpl; intuition discriminate. }
  assert (H : Forall2 (fun ds n =>
                dict_get (fst ds)
                  [("time"%string, 14); ("lat"%string, 3); ("lon"%string, 5)]
                = Some n /\ 1 <= n /\ 1 <= snd ds)
                [("time"%string, 4); ("lat"%string, 2)] [14; 3]).
  { constructor; [|constructor; [|constructor]]; simpl;
      (split; [reflexivity | lia]). }
  split; [exact Hnd|]. split; [exact H|].
  exact (load_by_step_tiles _ _ _ Hnd H).
Defined.

(** ** More on the solver and the plan *)




Lemma lprod_ones (t : list Z) :
  (forall j, (j < length t)%nat -> nth j t 0 = 1) -> lprod t = 1.
Proof.
  induction t as [|x t IH]; intros H; simpl; [reflexivity|].
  rewrite IH by (intros j Hj; apply (H (S j)); simpl; lia).
  specialize (H O ltac:(simpl; lia)). simpl in H. rewrite H. reflexivity.
Qed.

(** The product of a tuple that is 1 outside one position. *)
Lemma lprod_only (t : list Z) (a : nat) :
  (a < length t)%nat ->
  (forall j, (j < length t)%nat -> j <> a -> nth j t 0 = 1) ->
  lprod t = nth a t 0.
Proof.
  revert a. induction t as [|x t IH]; intros a Ha H; simpl in Ha; [lia|].
  destruct a as [|a]; simpl.
  - rewrite lprod_ones; [lia|].
    intros j Hj. apply (H (S j)); simpl; lia.
  - rewrite (IH a) by
      (try lia; intros j Hj Hne; apply (H (S j)); simpl; lia).
    specialize (H O ltac:(simpl; lia) ltac:(lia)). simpl in H. rewrite H.
    lia.
Qed.

Lemma axis_in_one (a j : nat) :
  axis_in j [Z.of_nat a] = Nat.eqb j a.
Proof.
  unfold axis_in. simpl. rewrite orb_false_r.
  destruct (Nat.eqb_spec j a) as [-> | Hne]; [apply Z.eqb_refl|].
  apply Z.eqb_neq. lia.
Qed.

(** X6: the docstring's "allocate maximum possible to axis 0".  When the
    plan starts with a single axis [a] of the shape, inside the exact range
    and for a budget of at most 2^53, the returned chunk has
    [min(shape[a], numel)] at [a], whatever the rest of the plan is. *)
Theorem first_axis_gets_most (shape : list Z) (numel : Z) (a : nat)
  (rest : list pref) (chunk : list Z) :
  Forall (fun s => 1 <= s) shape ->
  lprod shape < two63 -> 0 < numel -> numel <= two53 ->
  (a < length shape)%nat ->
  shape2chunk shape numel (Some (Axis (Z.of_nat a) :: rest)) = Ok chunk ->
  nth a chunk 0 = Z.min (nth a shape 0) numel.
Proof.
  intros Hs Hb Hn Hn53 Ha H.
  assert (Hp : 0 < numel < two63) by (unfold two53, two63 in *; lia).
  assert (Hf : fits shape numel) by (split; assumption).
  apply shape2chunk_ok in H as (_ & rf & Hg & H).
  cbn [plan_of pin_groups axes_of] in Hg.
  set (T := trial (free_ranges shape) [Z.of_nat a]) in *.
  destruct (_ranges2product T numel) as [ch|] eqn:Ech; [|discriminate].
  cbn [bind] in Hg.
  pose proof (free_working _ Hs) as Hw0.
  pose proof (trial_working _ _ [Z.of_nat a] Hw0) as HwT. fold T in HwT.
  pose proof (working_wf _ _ HwT) as HwfT.
  pose proof (working_fits _ _ _ Hf HwT) as HbT.
  assert (HlT : length T = length shape)
    by (unfold T; now rewrite trial_length, free_length).
  (* the pin survives *)
  assert (Efinal : nth a chunk 0 = nth a ch 0).
  { apply (solver_pinned rf numel chunk a _ H).
    - rewrite (pin_groups_length _ _ _ _ Hg), pin_length, free_length. lia.
    - apply (pinned_stays _ _ _ _ _ _ Hg).
      + rewrite pin_length, free_length. lia.
      + rewrite pin_nth by (rewrite free_length; lia).
        now rewrite axis_in_one, Nat.eqb_refl. }
  rewrite Efinal.
  (* the ranges of the first solve *)
  assert (HTa : nth a T no_range = mkrange 1 (nth a shape 0)).
  { unfold T. rewrite trial_nth by (rewrite free_length; lia).
    rewrite axis_in_one, Nat.eqb_refl. now apply nth_free. }
  assert (HTj : forall j, (j < length T)%nat -> j <> a ->
                          nth j T no_range = mkrange 1 1).
  { intros j Hj Hne. unfold T. rewrite trial_nth by (rewrite free_length; lia).
    rewrite axis_in_one. destruct (Nat.eqb_spec j a); [contradiction|].
    rewrite nth_free by lia. reflexivity. }
  pose proof (solver_within T numel HwfT ch Ech) as Hin.
  pose proof (solver_length _ _ _ Ech) as Hlch.
  assert (Hcha : 1 <= nth a ch 0 <= nth a shape 0).
  { pose proof (Forall2_nth_elim _ no_range 0 _ _ a Hin ltac:(lia)) as Hx.
    simpl in Hx. rewrite HTa in Hx. exact Hx. }
  assert (Eprod : lprod ch = nth a ch 0).
  { apply lprod_only; [lia|]. intros j Hj Hne.
    pose proof (Forall2_nth_elim _ no_range 0 _ _ j Hin ltac:(lia)) as Hx.
    simpl in Hx. rewrite HTj in Hx by (lia || assumption). simpl in Hx. lia. }
  pose proof (solver_admissible T numel HwfT HbT Hp ch Ech) as Hadm.
  (* the row of the grid that reaches the bound *)
  set (m := Z.min (nth a shape 0) numel).
  assert (Erow : lprod (row T m) = m).
  { rewrite (lprod_only _ a).
    - rewrite nth_row, HTa by lia. simpl. unfold clip, m. lia.
    - rewrite row_length. lia.
    - intros j Hj Hne. rewrite row_length in Hj.
      rewrite nth_row, HTj by assumption. simpl. unfold clip. lia. }
  destruct (ranges2product_ok _ _ _ Ech) as (sw & _ & Hsw & _).
  pose proof (sweep_best T numel HwfT HbT Hp Hn53 sw m Hsw) as Hbest.
  rewrite Erow in Hbest. specialize (Hbest ltac:(unfold m; lia)).
  pose proof (solver_best T numel HwfT HbT Hp Hn53 sw ch
                (repeat 0 (length T)) Hsw Ech (zeros_in _)) as Hz.
  rewrite clip_row_zeros in Hz by (now apply (sweep_within T numel)).
  specialize (Hz (sweep_admissible T numel HwfT HbT Hp sw Hsw)).
  unfold m in *. lia.
Qed.

Lemma first_axis_gets_most_witness :
  Forall (fun s => 1 <= s) [400; 30; 200; 100] /\
  lprod [400; 30; 200; 100] < two63 /\ 0 < 1024 /\ 1024 <= two53 /\
  (0 < length [400; 30; 200; 100])%nat /\
  shape2chunk [400; 30; 200; 100] 1024 (Some (Axis (Z.of_nat 0) :: [Axis 1]))
  = Ok [400; 2; 1; 1] /\
  nth 0 [400; 2; 1; 1] 0 = Z.min (nth 0 [400; 30; 200; 100] 0) 1024.
Proof.
  assert (Hs : Forall (fun s => 1 <= s) [400; 30; 200; 100])
    by (repeat constructor; lia).
  assert (Hb : lprod [400; 30; 200; 100] < two63) by (vm_compute; reflexivity).
  assert (Hn : 0 < 1024) by lia.
  assert (Hn53 : 1024 <= two53) by (unfold two53; lia).
  assert (Ha : (0 < length [400; 30; 200; 100])%nat) by (simpl; lia).
  assert (E : shape2chunk [400; 30; 200; 100] 1024
                (Some (Axis (Z.of_nat 0) :: [Axis 1])) = Ok [400; 2; 1; 1])
    by (vm_compute; reflexivity).
  split; [exact Hs|]. split; [exact Hb|]. split; [exact Hn|].
  split; [exact Hn53|]. split; [exact Ha|]. split; [exact E|].
  exact (first_axis_gets_most _ _ 0%nat [Axis 1] _ Hs Hb Hn Hn53 Ha E).
Defined.

Lemma axis_in_ext (axes axes' : list Z) (i : nat) :
  (forall x, In x axes <-> In x axes') -> axis_in i axes = axis_in i axes'.
Proof.
  intros H. unfold axis_in. apply eq_true_iff_eq.
  rewrite !existsb_exists. split; intros (x & Hx & E); exists x; split;
    (assumption || now apply H).
Qed.

Lemma pin_groups_ext (numel : Z) (p q : list pref) :
  Forall2 (fun g h => forall x, In x (axes_of g) <-> In x (axes_of h)) p q ->
  forall rngs, pin_groups rngs numel p = pin_groups rngs numel q.
Proof.
  induction 1 as [|g h p q Hgh _ IH]; intros rngs; simpl; [reflexivity|].
  assert (Et : trial rngs (axes_of g) = trial rngs (axes_of h)).
  { unfold trial. apply map_ext. intros [i r].
    now rewrite (axis_in_ext _ _ i Hgh). }
  rewrite Et. destruct (_ranges2product (trial rngs (axes_of h)) numel)
    as [chunks|]; [|reflexivity].
  simpl. rewrite <- IH. f_equal. unfold pin. apply map_ext. intros [i r].
  now rewrite (axis_in_ext _ _ i Hgh).
Qed.

(** X7: a group of the plan counts as the set of its indexes.  Two plans
    whose groups, one by one, name the same indexes give the same result:
    the order and the repetitions inside a group do not matter, and a bare
    axis [a] is the group [[a]]. *)
Theorem groups_are_sets (shape : list Z) (numel : Z) (p q : list pref) :
  Forall2 (fun g h => forall x, In x (axes_of g) <-> In x (axes_of h)) p q ->
  shape2chunk shape numel (Some p) = shape2chunk shape numel (Some q).
Proof.
  intros H. unfold shape2chunk. simpl.
  now rewrite (pin_groups_ext numel p q H).
Qed.

Lemma groups_are_sets_witness :
  Forall2 (fun g h => forall x, In x (axes_of g) <-> In x (axes_of h))
    [Axes [2; 3]; Axis 1] [Axes [3; 2; 3]; Axes [1]] /\
  shape2chunk [400; 30; 20; 10] 1024 (Some [Axes [2; 3]; Axis 1])
  = shape2chunk [400; 30; 20; 10] 1024 (Some [Axes [3; 2; 3]; Axes [1]]).
Proof.
  assert (H : Forall2
                (fun g h => forall x, In x (axes_of g) <-> In x (axes_of h))
                [Axes [2; 3]; Axis 1] [Axes [3; 2; 3]; Axes [1]]).
  { constructor; [|constructor; [|constructor]]; intros x; simpl; tauto. }
  split; [exact H|].
  exact (groups_are_sets [400; 30; 20; 10] 1024 _ _ H).
Defined.




Lemma axis_in_elim (i : nat) (axes : list Z) :
  axis_in i axes = true -> In (Z.of_nat i) axes.
Proof.
  unfold axis_in. intros H. apply existsb_exists in H as (x & Hx & E).
  apply Z.eqb_eq in E. now subst x.
Qed.

(** X18: an index of a group that is not an axis of the shape selects
    nothing: negative indexes do not count from the end and indexes past the
    last axis raise no error.  Inside the exact range a group all of whose
    indexes are negative or at least the number of dimensions is ignored:
    the call behaves as the call without that group. *)
Theorem unknown_axes_ignored (shape : list Z) (numel : Z)
  (p1 p2 : list pref) (g : pref) :
  Forall (fun s => 1 <= s) shape ->
  fits shape numel ->
  (forall x, In x (axes_of g) -> x < 0 \/ Z.of_nat (length shape) <= x) ->
  shape2chunk shape numel (Some (p1 ++ g :: p2))
  = shape2chunk shape numel (Some (p1 ++ p2)).
Proof.
  intros Hs Hf Hout.
  assert (Hn : numel <> 0) by (destruct Hf; lia).
  rewrite !shape2chunk_run by assumption. cbn [plan_of].
  destruct shape as [|s shape']; [now rewrite !run_empty|].
  set (shape := s :: shape') in *.
  rewrite !run_app.
  destruct (pin_groups (free_ranges shape) numel p1) as [r1|e] eqn:E1;
    [|reflexivity].
  cbn [bind]. unfold run.
  pose proof (pin_groups_working _ _ _ _ _ (free_working _ Hs) E1) as Hw.
  pose proof (pin_groups_length _ _ _ _ E1) as Hl.
  rewrite free_length in Hl.
  rewrite (group_noop shape r1 numel g p2); auto.
  - intros Hnil. rewrite Hnil in Hl. discriminate Hl.
  - apply (pin_groups_budget shape numel p1 (free_ranges shape)); auto.
    + now apply free_working.
    + rewrite free_starts. destruct Hf; lia.
  - intros i Hi Hin. apply axis_in_elim, Hout in Hin. lia.
Qed.

Lemma unknown_axes_ignored_witness :
  Forall (fun s => 1 <= s) [400; 30; 200; 100] /\
  fits [400; 30; 200; 100] 1024 /\
  (forall x, In x (axes_of (Axes [-1; 4])) ->
             x < 0 \/ Z.of_nat (length [400; 30; 200; 100]) <= x) /\
  shape2chunk [400; 30; 200; 100] 1024 (Some ([Axis 0] ++ Axes [-1; 4] :: []))
  = shape2chunk [400; 30; 200; 100] 1024 (Some ([Axis 0] ++ [])).
Proof.
  assert (Hs : Forall (fun s => 1 <= s) [400; 30; 200; 100])
    by (repeat constructor; lia).
  assert (Hf : fits [400; 30; 200; 100] 1024)
    by (unfold fits; vm_compute; intuition congruence).
  assert (Hout : forall x, In x (axes_of (Axes [-1; 4])) ->
                   x < 0 \/ Z.of_nat (length [400; 30; 200; 100]) <= x).
  { simpl. intros x [<- | [<- | []]]; lia. }
  split; [exact Hs|]. split; [exact Hf|]. split; [exact Hout|].
  exact (unknown_axes_ignored _ 1024 [Axis 0] [] (Axes [-1; 4]) Hs Hf Hout).
Defined.

Lemma trial_wf (rngs : list range) (axes : list Z) :
  Forall wf rngs -> Forall wf (trial rngs axes).
Proof.
  intros H. apply Forall_nth. intros i d Hi. rewrite trial_length in Hi.
  rewrite (nth_indep _ d no_range) by (now rewrite trial_length).
  rewrite trial_nth by assumption.
  pose proof (proj1 (Forall_nth wf rngs) H i no_range Hi) as Hr.
  unfold wf in *. destruct (axis_in i axes); simpl; lia.
Qed.

Lemma trial_stops_le (rngs : list range) (axes : list Z) :
  Forall wf rngs ->
  lprod (stops (trial rngs axes)) <= lprod (stops rngs).
Proof.
  intros H. apply lprod_le.
  apply (Forall2_by_nth _ 0 0).
  - unfold stops. now rewrite !length_map, trial_length.
  - intros i Hi. unfold stops in *. rewrite length_map, trial_length in Hi.
    change 0 with (stop no_range). rewrite !map_nth.
    rewrite trial_nth by assumption.
    pose proof (proj1 (Forall_nth wf rngs) H i no_range Hi) as Hr.
    unfold wf in *. destruct (axis_in i axes); simpl; lia.
Qed.

Lemma pin_to_stops (rngs : list range) (axes : list Z) :
  Forall wf rngs ->
  Forall wf (pin rngs axes (stops (trial rngs axes))) /\
  stops (pin rngs axes (stops (trial rngs axes))) = stops rngs.
Proof.
  intros H.
  assert (Hnth : forall i, (i < length rngs)%nat ->
            nth i (pin rngs axes (stops (trial rngs axes))) no_range
            = if axis_in i axes
              then mkrange (stop (nth i rngs no_range))
                     (stop (nth i rngs no_range))
              else nth i rngs no_range).
  { intros i Hi. rewrite pin_nth by assumption.
    destruct (axis_in i axes) eqn:E; [|reflexivity].
    unfold stops. change 0 with (stop no_range).
    rewrite map_nth, trial_nth, E by assumption. reflexivity. }
  split.
  - apply Forall_nth. intros i d Hi. rewrite pin_length in Hi.
    rewrite (nth_indep _ d no_range) by (now rewrite pin_length).
    rewrite Hnth by assumption.
    pose proof (proj1 (Forall_nth wf rngs) H i no_range Hi) as Hr.
    unfold wf in *. destruct (axis_in i axes); simpl; lia.
  - apply (nth_ext _ _ 0 0).
    + unfold stops. now rewrite !length_map, pin_length.
    + intros i Hi. unfold stops in *. rewrite length_map, pin_length in Hi.
      change 0 with (stop no_range). rewrite !map_nth, Hnth by assumption.
      now destruct (axis_in i axes).
Qed.

(** A budget that holds the upper ends of all ranges gives those upper
    ends, whatever the plan. *)
Lemma run_saturates (numel : Z) (plan : list pref) :
  0 < numel <= two53 ->
  forall rngs, Forall wf rngs -> rngs <> [] ->
    lprod (stops rngs) <= numel ->
    run rngs numel plan = Ok (stops rngs).
Proof.
  intros Hn. induction plan as [|g plan IH]; intros rngs Hwf Hne Hle.
  - unfold run. cbn [pin_groups bind]. now apply solver_saturates.
  - unfold run in *. cbn [pin_groups].
    rewrite (solver_saturates (trial rngs (axes_of g)) numel).
    + cbn [bind].
      destruct (pin_to_stops rngs (axes_of g) Hwf) as [Hwf' Hst].
      rewrite <- Hst. apply IH.
      * assumption.
      * intros Hnil. apply Hne, length_zero_iff_nil.
        rewrite <- (pin_length rngs (axes_of g)
                      (stops (trial rngs (axes_of g)))), Hnil. reflexivity.
      * now rewrite Hst.
    + now apply trial_wf.
    + intros Hnil. apply Hne, length_zero_iff_nil.
      rewrite <- (trial_length rngs (axes_of g)), Hnil. reflexivity.
    + pose proof (trial_stops_le rngs (axes_of g) Hwf). lia.
    + assumption.
Qed.

(** X4: an array that fits in the budget is one chunk, whatever the
    preference.  For every shape with at least one dimension and all extents
    at least 1, every budget [numel] of at least the number of elements and
    at most 2^53, and every plan, [shape2chunk] returns the shape itself. *)
Theorem whole_array_any_plan (shape : list Z) (numel : Z)
  (pa : option (list pref)) :
  Forall (fun s => 1 <= s) shape -> shape <> [] ->
  lprod shape <= numel -> numel <= two53 ->
  shape2chunk shape numel pa = Ok shape.
Proof.
  intros Hs Hne Hle Hp.
  pose proof (lprod_pos _ Hs) as Hpos.
  rewrite shape2chunk_run by (assumption || lia).
  rewrite <- (free_stops shape) at 2.
  apply run_saturates.
  - lia.
  - eapply working_wf, free_working; assumption.
  - destruct shape; [congruence | discriminate].
  - now rewrite free_stops.
Qed.

Lemma whole_array_any_plan_witness :
  Forall (fun s => 1 <= s) [4; 3; 2] /\ [4; 3; 2] <> [] /\
  lprod [4; 3; 2] <= 30 /\ 30 <= two53 /\
  shape2chunk [4; 3; 2] 30 (Some [Axes [2; 1]; Axis 0]) = Ok [4; 3; 2].
Proof.
  assert (Hs : Forall (fun s => 1 <= s) [4; 3; 2]) by (repeat constructor; lia).
  assert (Hne : [4; 3; 2] <> []) by discriminate.
  assert (Hle : lprod [4; 3; 2] <= 30) by (vm_compute; discriminate).
  assert (Hp : 30 <= two53) by (unfold two53; lia).
  split; [exact Hs|]. split; [exact Hne|]. split; [exact Hle|].
  split; [exact Hp|].
  exact (whole_array_any_plan [4; 3; 2] 30 (Some [Axes [2; 1]; Axis 0])
           Hs Hne Hle Hp).
Defined.

(** X19: chunking a chunk changes nothing.  A chunk shape returned for a
    budget of at most 2^53 (for a shape with at least one dimension, all
    extents at least 1 and fewer than 2^63 elements) is returned again when
    [shape2chunk] is called on it with the same budget, under any plan. *)
Theorem chunk_of_chunk (shape : list Z) (numel : Z)
  (pa qa : option (list pref)) (chunk : list Z) :
  Forall (fun s => 1 <= s) shape -> shape <> [] ->
  lprod shape < two63 -> 0 < numel -> numel <= two53 ->
  shape2chunk shape numel pa = Ok chunk ->
  shape2chunk chunk numel qa = Ok chunk.
Proof.
  intros Hs Hne Hb Hn Hp H.
  assert (Hf : fits shape numel)
    by (unfold fits, two53, two63 in *; lia).
  destruct (chunk_in_range shape numel pa Hs Hne Hf) as (c & E & Hin & Hle).
  rewrite H in E. injection E as <-.
  assert (Hc : Forall (fun s => 1 <= s) chunk).
  { clear - Hin. induction Hin as [|? ? ? ? Hx _ IH]; constructor;
      [lia | exact IH]. }
  assert (Hcne : chunk <> []).
  { intros ->. inversion Hin; subst. congruence. }
  rewrite shape2chunk_run by (assumption || lia).
  rewrite <- (free_stops chunk) at 2.
  apply run_saturates.
  - lia.
  - eapply working_wf, free_working; assumption.
  - destruct chunk; [congruence | discriminate].
  - now rewrite free_stops.
Qed.

Lemma chunk_of_chunk_witness :
  Forall (fun s => 1 <= s) [400; 30; 200; 100] /\
  [400; 30; 200; 100] <> [] /\
  lprod [400; 30; 200; 100] < two63 /\ 0 < 1024 /\ 1024 <= two53 /\
  shape2chunk [400; 30; 200; 100] 1024 None = Ok [6; 6; 5; 5] /\
  shape2chunk [6; 6; 5; 5] 1024 (Some [Axis 3]) = Ok [6; 6; 5; 5].
Proof.
  assert (Hs : Forall (fun s => 1 <= s) [400; 30; 200; 100])
    by (repeat constructor; lia).
  assert (Hne : [400; 30; 200; 100] <> []) by discriminate.
  assert (Hb : lprod [400; 30; 200; 100] < two63) by (vm_compute; reflexivity).
  assert (Hn : 0 < 1024) by lia.
  assert (Hp : 1024 <= two53) by (unfold two53; lia).
  assert (E : shape2chunk [400; 30; 200; 100] 1024 None = Ok [6; 6; 5; 5])
    by (vm_compute; reflexivity).
  split; [exact Hs|]. split; [exact Hne|]. split; [exact Hb|].
  split; [exact Hn|]. split; [exact Hp|]. split; [exact E|].
  exact (chunk_of_chunk _ _ None (Some [Axis 3]) _ Hs Hne Hb Hn Hp E).
Defined.

(** X20: one group that names every axis is no preference at all: inside
    the exact range the call returns what the call without a plan
    returns. *)
Theorem full_group_is_no_plan (shape : list Z) (numel : Z) (g : pref) :
  Forall (fun s => 1 <= s) shape -> fits shape numel ->
  (forall i, (i < length shape)%nat -> axis_in i (axes_of g) = true) ->
  shape2chunk shape numel (Some [g]) = shape2chunk shape numel None.
Proof.
  intros Hs Hf Hall.
  assert (Hn : numel <> 0) by (destruct Hf; lia).
  rewrite !shape2chunk_run by assumption. unfold run.
  cbn [plan_of pin_groups bind].
  assert (Et : trial (free_ranges shape) (axes_of g) = free_ranges shape).
  { apply (nth_ext _ _ no_range no_range); [apply trial_length|].
    intros i Hi. rewrite trial_length in Hi.
    rewrite trial_nth by assumption.
    rewrite free_length in Hi. now rewrite Hall. }
  rewrite Et.
  destruct (_ranges2product (free_ranges shape) numel) as [ch|e] eqn:E;
    [|reflexivity].
  cbn [bind].
  pose proof (free_working _ Hs) as Hw.
  pose proof (working_wf _ _ Hw) as Hwf.
  pose proof (working_fits _ _ _ Hf Hw) as Hb.
  pose proof (solver_within _ numel Hwf ch E) as Hin.
  pose proof (solver_admissible _ numel Hwf Hb (proj2 Hf) ch E) as Hle.
  pose proof (solver_length _ _ _ E) as Hl.
  assert (Hone : Forall (fun c => 1 <= c) ch).
  { apply Forall_nth. intros i d Hi.
    rewrite (nth_indep _ d 0) by assumption.
    pose proof (Forall2_nth_elim _ no_range 0 _ _ i Hin ltac:(lia)) as Hx.
    simpl in Hx. rewrite nth_free in Hx by (rewrite free_length in Hl; lia).
    simpl in Hx. lia. }
  assert (Ep : pin (free_ranges shape) (axes_of g) ch
               = map (fun c => mkrange c c) ch).
  { apply (nth_ext _ _ no_range no_range).
    - now rewrite pin_length, length_map.
    - intros i Hi. rewrite pin_length in Hi. rewrite pin_nth by assumption.
      rewrite free_length in Hi. rewrite Hall by assumption.
      change no_range with ((fun c => mkrange c c) 0) at 1.
      now rewrite map_nth. }
  rewrite Ep.
  assert (Es : starts (map (fun c => mkrange c c) ch) = ch)
    by (unfold starts; rewrite map_map; apply map_id).
  assert (Ee : stops (map (fun c => mkrange c c) ch) = ch)
    by (unfold stops; rewrite map_map; apply map_id).
  rewrite <- Es at 2. apply solver_all_pinned.
  - apply Forall_map. revert Hone. apply Forall_impl. intros c Hc.
    unfold wf. simpl. lia.
  - intros Hnil. apply map_eq_nil in Hnil. subst ch.
    destruct shape; [|discriminate Hl]. cbn in E. discriminate E.
  - rewrite Ee. destruct Hf. lia.
  - apply Hf.
  - now rewrite Es.
  - apply Forall_map, Forall_forall. intros c _. reflexivity.
Qed.

Lemma full_group_is_no_plan_witness :
  Forall (fun s => 1 <= s) [400; 30; 200; 100] /\
  fits [400; 30; 200; 100] 1024 /\
  (forall i, (i < length [400; 30; 200; 100])%nat ->
             axis_in i (axes_of (Axes [3; 1; 0; 2])) = true) /\
  shape2chunk [400; 30; 200; 100] 1024 (Some [Axes [3; 1; 0; 2]])
  = shape2chunk [400; 30; 200; 100] 1024 None.
Proof.
  assert (Hs : Forall (fun s => 1 <= s) [400; 30; 200; 100])
    by (repeat constructor; lia).
  assert (Hf : fits [400; 30; 200; 100] 1024)
    by (unfold fits; vm_compute; intuition congruence).
  assert (Hall : forall i, (i < length [400; 30; 200; 100])%nat ->
                   axis_in i (axes_of (Axes [3; 1; 0; 2])) = true).
  { intros i Hi. simpl in Hi.
    destruct i as [|[|[|[|i]]]]; try reflexivity. lia. }
  split; [exact Hs|]. split; [exact Hf|]. split; [exact Hall|].
  exact (full_group_is_no_plan _ 1024 (Axes [3; 1; 0; 2]) Hs Hf Hall).
Defined.
